(** * Mortgage amortization of buy-vs-rent: a shallow embedding

    The two [Mortgage] classes of the repository ([src/house.py] and
    [src/src/house.py]) are embedded as Rocq functions over exact rational
    numbers.  Python's [float] arithmetic ([+], [-], [*], [/], [min],
    comparison, [round]) is read as arithmetic over [Q]; the one irrational
    operation of the source, [x ** (1 / 12)], is evaluated to eighteen
    decimal places.  A generator is a step function on the record of its
    local variables; the clock read by [date.today()] is an explicit
    argument. *)

From Stdlib Require Import ZArith QArith Qround Qabs Qpower Lqa Lia List Bool.
Import ListNotations.
Open Scope Q_scope.

(** ** Python primitives *)

Module Py.

(** [a < b] on numbers, as a boolean. *)
Definition ltb (a b : Q) : bool :=
  (Qnum a * QDen b <? Qnum b * QDen a)%Z.

(** [min(a, b)]: the first argument unless the second is strictly
    smaller. *)
Definition min (a b : Q) : Q := if ltb b a then b else a.

(** Rounding to the nearest integer, ties to the even neighbour. *)
Definition round_half_even (y : Q) : Z :=
  let f := Qfloor y in
  match Qcompare (y - inject_Z f) (1 # 2) with
  | Lt => f
  | Gt => (f + 1)%Z
  | Eq => if Z.even f then f else (f + 1)%Z
  end.

Definition scale (ndigits : nat) : positive :=
  Z.to_pos (10 ^ Z.of_nat ndigits).

(** [round(x, ndigits)] for a non-negative number of digits. *)
Definition round (x : Q) (ndigits : nat) : Q :=
  Qmake (round_half_even (x * inject_Z (Zpos (scale ndigits))))
        (scale ndigits).

(** Integer [k]-th root by bisection on the bits of the result. *)
Fixpoint iroot_bits (k : positive) (x : Z) (bits : nat) (acc : Z) : Z :=
  match bits with
  | O => acc
  | S b =>
      let cand := (acc + 2 ^ Z.of_nat b)%Z in
      iroot_bits k x b (if (cand ^ Zpos k <=? x)%Z then cand else acc)
  end.

Definition iroot (k : positive) (x : Z) : Z :=
  iroot_bits k x (Z.to_nat (Z.log2 x / Zpos k + 1)) 0.

(** Decimal places kept by [pow_twelfth]. *)
Definition root_digits : Z := 18.

(** [x ** (1 / 12)] for [x >= 0], truncated to [root_digits] decimal
    places: the largest [r] with that many decimals and [r ^ 12 <= x]. *)
Definition pow_twelfth (x : Q) : Q :=
  Qmake (iroot 12 (Qfloor (x * inject_Z (10 ^ (12 * root_digits)))))
        (Z.to_pos (10 ^ root_digits)).

(** [datetime.date]. *)
Record date : Set := mkdate { year : Z; month : Z; day : Z }.

Definition date_eqb (a b : date) : bool :=
  (year a =? year b)%Z && (month a =? month b)%Z && (day a =? day b)%Z.

Definition is_leap (y : Z) : bool :=
  ((y mod 4 =? 0) && (negb (y mod 100 =? 0) || (y mod 400 =? 0)))%Z.

Definition days_in_month (y m : Z) : Z :=
  if (m =? 2)%Z then (if is_leap y then 29 else 28)%Z
  else if ((m =? 4) || (m =? 6) || (m =? 9) || (m =? 11))%Z then 30%Z
  else 31%Z.

(** [d.replace(day=1)]. *)
Definition replace_day1 (d : date) : date :=
  mkdate (year d) (month d) 1.

(** [d + relativedelta(months=1)]: the same day of the next month, clipped
    to the length of that month. *)
Definition add_month (d : date) : date :=
  let y := if (month d =? 12)%Z then (year d + 1)%Z else year d in
  let m := if (month d =? 12)%Z then 1%Z else (month d + 1)%Z in
  mkdate y m (Z.min (day d) (days_in_month y m)).

(** Exceptions.  [TypeError], [KeyError] and [ValueError] are raised by the
    interpreter and by pandas; [InvalidLoanSpec] and
    [NonTerminatingSchedule] are the error kinds of the specification, and
    no statement of the source raises them. *)
Inductive exn : Set :=
| TypeError
| KeyError
| ValueError
| InvalidLoanSpec
| NonTerminatingSchedule.

Inductive outcome (A : Type) : Type :=
| Returns (a : A)
| Raises (e : exn).
Arguments Returns {A} a.
Arguments Raises {A} e.

Definition bind {A B : Type} (c : outcome A) (k : A -> outcome B)
  : outcome B :=
  match c with
  | Returns a => k a
  | Raises e => Raises e
  end.

(** A value that may be [None], a number or a sequence of numbers. *)
Inductive obj : Type :=
| PyNone
| PyFloat (x : Q)
| PySeq (xs : list Q).

(** [all(o)]: iterates over [o] and tests every element for truth; a
    number is true when it is not zero. *)
Definition all (o : obj) : outcome bool :=
  match o with
  | PySeq xs => Returns (forallb (fun x => negb (Qeq_bool x 0)) xs)
  | PyNone | PyFloat _ => Raises TypeError
  end.

End Py.

Notation "x <- c ;; k" := (Py.bind c (fun x => k))
  (at level 61, c at next level, right associativity).

(** ** numpy_financial *)

Module Npf.

(** [npf.pmt(rate, nper, pv)] with [fv = 0] and payments at the end of
    each period: [-(pv * temp) / fact] with [temp = (1 + rate) ** nper] and
    [fact = nper] at a zero rate, [(temp - 1) / rate] otherwise.  For a
    positive principal this is minus the annuity payment
    [pv * r / (1 - (1 + r) ^ -n)].  The division is exact where [fact] is
    not zero, which is so for [nper > 0] and [rate > -1]. *)
Definition pmt (rate : Q) (nper : Z) (pv : Q) : Q :=
  let temp := (1 + rate) ^ nper in
  let fact :=
    if Qeq_bool rate 0 then inject_Z nper else (temp - 1) / rate in
  - (pv * temp) / fact.

End Npf.

(** ** The generator [amortizdict]

    Both files contain the same loop; they differ in the number of digits
    interest is rounded to and in the periodic rate computed before the
    loop. *)

(** One yielded [OrderedDict]. *)
Record row : Type := mkrow {
  Date : Py.date;
  Period : Z;
  Begin_balance : Q;
  Payment : Q;
  Principal : Q;
  Interest : Q;
  Additional_payment : Q;
  End_balance : Q
}.

(** The local variables of the generator that live across iterations. *)
Record locals : Type := mklocals {
  pmt : Q;
  adp : Q;
  per : Z;
  beg_balance : Q;
  end_balance : Q;
  start_date : Py.date
}.

Section Amortizdict.

Variable ndigits : nat.
Variable periodic_interest_rate : Q.

(** The body of [while end_balance > 0], up to the end of the iteration. *)
Definition loop_body (l : locals) : row * locals :=
  let interest := Py.round (periodic_interest_rate * beg_balance l) ndigits in
  let pmt' := Py.min (pmt l) (beg_balance l + interest) in
  let principal := pmt' - interest in
  let adp' := Py.min (adp l) (beg_balance l - principal) in
  let end_balance' := beg_balance l - (principal + adp') in
  (mkrow (start_date l) (per l) (beg_balance l) pmt' principal interest
         adp' end_balance',
   mklocals pmt' adp' (per l + 1) end_balance' end_balance'
            (Py.add_month (start_date l))).

(** [next(gen)]: [None] is [StopIteration]. *)
Definition next (l : locals) : option (row * locals) :=
  if Py.ltb 0 (end_balance l) then Some (loop_body l) else None.

(** The first [n] dictionaries the generator yields (fewer when it stops
    earlier). *)
Fixpoint islice (n : nat) (l : locals) : list row :=
  match n with
  | O => []
  | S n' =>
      match next l with
      | None => []
      | Some (r, l') => r :: islice n' l'
      end
  end.

(** Running the generator to exhaustion, as [pd.DataFrame(gen)] does:
    [None] when it has not stopped after [fuel] dictionaries. *)
Fixpoint exhaust (fuel : nat) (l : locals) : option (list row) :=
  match next l with
  | None => Some []
  | Some (r, l') =>
      match fuel with
      | O => None
      | S fuel' => option_map (cons r) (exhaust fuel' l')
      end
  end.

End Amortizdict.

(** Sum of the [Interest] column. *)
Definition total_interest (rows : list row) : Q :=
  fold_right (fun r acc => Interest r + acc) 0 rows.

(** A row without its [Date]. *)
Definition undated (r : row) : Z * Q * Q * Q * Q * Q * Q :=
  (Period r, Begin_balance r, Payment r, Principal r, Interest r,
   Additional_payment r, End_balance r).

(** ** The data frame built by [amortize] *)

(** A row of the frame after [set_index("Date")], [drop(columns=["Period"])]
    and [resample("MS").agg(...)]. *)
Record agg_row : Type := mkagg_row {
  a_Date : Py.date;
  a_Begin_balance : Q;
  a_Payment : Q;
  a_Principal : Q;
  a_Interest : Q;
  a_Additional_payment : Q;
  a_End_balance : Q
}.

(** The same row with the column added by [assign(total_payment=...)]. *)
Record frame_row : Type := mkframe_row {
  f_row : agg_row;
  total_payment : Q
}.

Definition max (a b : Q) : Q := if Py.ltb a b then b else a.

(** Adding a dictionary to the group of its month: [max] of
    [Begin_balance], [min] of [End_balance], sums of the rest. *)
Fixpoint agg_insert (r : row) (acc : list agg_row) : list agg_row :=
  match acc with
  | [] =>
      [mkagg_row (Date r) (Begin_balance r) (Payment r) (Principal r)
                 (Interest r) (Additional_payment r) (End_balance r)]
  | a :: acc' =>
      if Py.date_eqb (Date r) (a_Date a) then
        mkagg_row (a_Date a)
                  (max (a_Begin_balance a) (Begin_balance r))
                  (a_Payment a + Payment r)
                  (a_Principal a + Principal r)
                  (a_Interest a + Interest r)
                  (a_Additional_payment a + Additional_payment r)
                  (Py.min (a_End_balance a) (End_balance r)) :: acc'
      else a :: agg_insert r acc'
  end.

(** The dates are first days of months, so that the month-start bins of
    [resample("MS")] are the dates themselves. *)
Definition resample_agg (rows : list row) : list agg_row :=
  fold_left (fun acc r => agg_insert r acc) rows [].

Definition assign_total_payment (a : agg_row) : frame_row :=
  mkframe_row a (a_Payment a + a_Additional_payment a).

(** [pd.DataFrame(rows)] followed by the chain of [amortize]; a frame built
    from no dictionary has no column, and selecting ["Date"] fails. *)
Definition build_frame (rows : list row) : Py.outcome (list frame_row) :=
  match rows with
  | [] => Py.Raises Py.KeyError
  | _ => Py.Returns (map assign_total_payment (resample_agg rows))
  end.

(** ** [src/house.py]: semi-annual compounding, two digits *)

Module House.

Record Mortgage : Type := mkMortgage {
  principal : Q;
  years : Z;
  rate : Q
}.

(** [Mortgage.__init__] stores its arguments. *)
Definition init (principal : Q) (years : Z) (rate : Q)
  : Py.outcome Mortgage :=
  Py.Returns (mkMortgage principal years rate).

(** The local [periodic_interest_rate] of [monthly_payment]. *)
Definition monthly_payment_rate (self : Mortgage) : Q :=
  let rate := rate self in
  Py.pow_twelfth (1 + rate) - 1.

Definition monthly_payment (self : Mortgage) : Py.outcome Q :=
  let periodic_interest_rate := monthly_payment_rate self in
  let periods := (years self * 12)%Z in
  let pmt :=
    - Py.round (Npf.pmt periodic_interest_rate periods (principal self)) 2 in
  Py.Returns pmt.

(** The local [periodic_interest_rate] of [amortizdict]. *)
Definition amortizdict_rate (self : Mortgage) : Q :=
  let rate := (1 + rate self / 2) ^ 2 - 1 in
  Py.pow_twelfth (1 + rate) - 1.

Definition ndigits : nat := 2.

(** [amortizdict(adp)] run up to the head of its loop. *)
Definition amortizdict (self : Mortgage) (adp : Q) (today : Py.date)
  : Py.outcome locals :=
  pmt <- monthly_payment self ;;
  Py.Returns
    (mklocals pmt adp 1 (principal self) (principal self)
              (Py.add_month (Py.replace_day1 today))).

(** The first [n] dictionaries of [amortizdict(adp)]. *)
Definition schedule_prefix (self : Mortgage) (adp : Q) (today : Py.date)
           (n : nat) : Py.outcome (list row) :=
  l <- amortizdict self adp today ;;
  Py.Returns (islice ndigits (amortizdict_rate self) n l).

(** All dictionaries of [amortizdict(adp)]; [None] when the generator has
    not stopped within [fuel] of them. *)
Definition schedule (self : Mortgage) (adp : Q) (today : Py.date)
           (fuel : nat) : option (Py.outcome (list row)) :=
  match amortizdict self adp today with
  | Py.Raises e => Some (Py.Raises e)
  | Py.Returns l =>
      option_map Py.Returns (exhaust ndigits (amortizdict_rate self) fuel l)
  end.

Definition amortize (self : Mortgage) (addl_pmt : Q) (today : Py.date)
           (fuel : nat) : option (Py.outcome (list frame_row)) :=
  option_map (fun rows => rows <- rows ;; build_frame rows)
             (schedule self addl_pmt today fuel).

End House.

(** ** [src/src/house.py]: [rate / 12], no digit, tax deduction *)

Module SrcHouse.

Record Mortgage : Type := mkMortgage {
  principal : Q;
  years : Z;
  rate : Q;
  monthly_fictitious_income : Py.obj;
  deduction_rate : Q
}.

(** [Mortgage.__init__]; [monthly_fictitious_income] is [PyNone] when the
    caller leaves it out. *)
Definition init (principal : Q) (years : Z) (rate : Q)
           (monthly_fictitious_income : Py.obj) : Py.outcome Mortgage :=
  Py.Returns
    (mkMortgage principal years rate monthly_fictitious_income
                (3707 # 10000)).

(** The local [periodic_interest_rate], the same expression in
    [monthly_payment] and in [amortizdict]. *)
Definition periodic_interest_rate (self : Mortgage) : Q :=
  rate self / 12.

Definition monthly_payment (self : Mortgage) : Py.outcome Q :=
  let periodic_interest_rate := periodic_interest_rate self in
  let periods := (years self * 12)%Z in
  let pmt :=
    - Py.round (Npf.pmt periodic_interest_rate periods (principal self)) 0 in
  Py.Returns pmt.

Definition ndigits : nat := 0.

Definition amortizdict (self : Mortgage) (adp : Q) (today : Py.date)
  : Py.outcome locals :=
  pmt <- monthly_payment self ;;
  Py.Returns
    (mklocals pmt adp 1 (principal self) (principal self)
              (Py.add_month (Py.replace_day1 today))).

Definition schedule_prefix (self : Mortgage) (adp : Q) (today : Py.date)
           (n : nat) : Py.outcome (list row) :=
  l <- amortizdict self adp today ;;
  Py.Returns (islice ndigits (periodic_interest_rate self) n l).

Definition schedule (self : Mortgage) (adp : Q) (today : Py.date)
           (fuel : nat) : option (Py.outcome (list row)) :=
  match amortizdict self adp today with
  | Py.Raises e => Some (Py.Raises e)
  | Py.Returns l =>
      option_map Py.Returns
                 (exhaust ndigits (periodic_interest_rate self) fuel l)
  end.

(** A row of the returned frame. *)
Record tax_row : Type := mktax_row {
  t_row : agg_row;
  t_total_payment : Q;
  Tax_deduction : Q;
  Net_interest : Q
}.

(** [self.deduction_rate * (self.monthly_fictitious_income -
    df["Interest"])] rounded with [.round(0)]: element by element, for a
    sequence of the length of the frame. *)
Definition tax_deduction (self : Mortgage) (income : list Q)
           (df : list frame_row) : Py.outcome (list Q) :=
  if (length income =? length df)%nat then
    Py.Returns
      (map (fun p : Q * frame_row =>
              Py.round (deduction_rate self
                        * (fst p - a_Interest (f_row (snd p)))) 0)
           (combine income df))
  else Py.Raises Py.ValueError.

Definition add_tax (p : frame_row * Q) : tax_row :=
  mktax_row (f_row (fst p))
            (total_payment (fst p) + snd p)
            (snd p)
            (a_Interest (f_row (fst p)) + snd p).

(** The statements after the frame is built.  The column
    ["Tax deduction"] is assigned under the [if] only and read after it. *)
Definition tax_overlay (self : Mortgage) (df : list frame_row)
  : Py.outcome (list tax_row) :=
  b <- Py.all (monthly_fictitious_income self) ;;
  column <-
    (if b then
       match monthly_fictitious_income self with
       | Py.PySeq income =>
           col <- tax_deduction self income df ;; Py.Returns (Some col)
       | _ => Py.Raises Py.TypeError
       end
     else Py.Returns None) ;;
  match column with
  | Some col => Py.Returns (map add_tax (combine df col))
  | None => Py.Raises Py.KeyError
  end.

Definition amortize (self : Mortgage) (addl_pmt : Q) (today : Py.date)
           (fuel : nat) : option (Py.outcome (list tax_row)) :=
  option_map (fun rows => rows <- rows ;; df <- build_frame rows ;;
                          tax_overlay self df)
             (schedule self addl_pmt today fuel).

End SrcHouse.

(** ** Validity of an input, in the words of the specification *)



(** ** Inputs of the examples *)

Definition today0 : Py.date := Py.mkdate 2024 1 15.


(** 1200 borrowed for one year at a zero rate. *)
Definition small_loan : SrcHouse.Mortgage :=
  SrcHouse.mkMortgage 1200 1 0 Py.PyNone (3707 # 10000).




(** A later day of the month of [today0]. *)
Definition today0_later : Py.date := Py.mkdate 2024 1 28.

(** A day of the next month. *)
Definition today1 : Py.date := Py.mkdate 2024 2 15.

(** [n] consecutive months from [d0] on. *)
Fixpoint months_from (d0 : Py.date) (n : nat) : list Py.date :=
  match n with
  | O => []
  | S n' => d0 :: months_from (Py.add_month d0) n'
  end.

(** The scenario of the specification: 300000 over thirty years at 4%. *)
Definition scenario_loan : House.Mortgage :=
  House.mkMortgage 300000 30 (4 # 100).

(** ** Counting periods on reduced fractions *)

(** The same local variables with every fraction in lowest terms. *)
Definition reduce (l : locals) : locals :=
  mklocals (Qred (pmt l)) (Qred (adp l)) (per l) (Qred (beg_balance l))
           (Qred (end_balance l)) (start_date l).

(** The number of dictionaries the generator yields, computed on reduced
    fractions. *)
Fixpoint count_periods (d : nat) (r : Q) (fuel : nat) (l : locals)
  : option nat :=
  match next d r l with
  | None => Some O
  | Some (_, l') =>
      match fuel with
      | O => None
      | S fuel' => option_map S (count_periods d r fuel' (reduce l'))
      end
  end.

(** Local variables that hold equal numbers. *)
Definition same_numbers (l l' : locals) : Prop :=
  pmt l == pmt l' /\ adp l == adp l' /\
  beg_balance l == beg_balance l' /\ end_balance l == end_balance l'.

(** An upper and a lower bound of the twelfth power of
    [pow_twelfth 1.04]. *)
Definition scenario_upper : Q := 104 # 100.

Definition scenario_lower : Q := (104 # 100) - (1 # 10000000000000000).

(** ** The class [House] of [src/house.py] *)

Module HouseClass.

Record House : Type := mkHouse { value : Q }.

(** [House.__init__]. *)
Definition init (value : Q) : House := mkHouse value.

(** [monthly_property_tax(rate)]; [None] stands for the default
    [rate = 0.00042]. *)
Definition monthly_property_tax (self : House) (rate : option Q) : Q :=
  let rate := match rate with Some x => x | None => 42 # 100000 end in
  value self * rate / 12.

(** The dictionary [{"mortgage": ..., "cash": ...}] returned by [buy]. *)
Record purchase : Type := mkpurchase { mortgage : Q; cash : Q }.

(** [buy(down_payment, additional_costs)]; [None] is the default of
    [additional_costs]. *)
Definition buy (self : House) (down_payment : Q) (additional_costs : option Q)
  : purchase :=
  let mortgage_amt := value self - down_payment in
  let additional_costs :=
    match additional_costs with
    | None => (5 # 100) * value self
    | Some c => c
    end in
  let cash := down_payment + additional_costs in
  mkpurchase mortgage_amt cash.

Definition sell (self : House) : Q := value self.

End HouseClass.

(** ** The class [House] of [src/src/house.py] *)

Module SrcHouseClass.

Record House : Type := mkHouse {
  value : Q;
  woz_value : Q;
  montly_fictitious_income : Q
}.

(** [House.__init__(value, woz_value, ewf)]. *)
Definition init (value woz_value ewf : Q) : House :=
  mkHouse value woz_value (woz_value * ewf / 12).

Definition monthly_property_tax (self : House) (rate : option Q) : Q :=
  let rate := match rate with Some x => x | None => 42 # 100000 end in
  value self * rate / 12.

Record purchase : Type := mkpurchase { mortgage : Q; cash : Q }.

Definition buy (self : House) (down_payment : Q) (additional_costs : option Q)
  : purchase :=
  let mortgage_amt := value self - down_payment in
  let additional_costs :=
    match additional_costs with
    | None => (5 # 100) * value self
    | Some c => c
    end in
  let cash := down_payment + additional_costs in
  mkpurchase mortgage_amt cash.

Definition sell (self : House) : Q := value self.

End SrcHouseClass.

(** ** Vocabulary of the further properties *)

(** Each dictionary begins with the balance the one before ended with,
    the first one with [b]. *)
Fixpoint continuous (b : Q) (rows : list row) : Prop :=
  match rows with
  | [] => True
  | row0 :: rest => Begin_balance row0 = b /\ continuous (End_balance row0) rest
  end.

(** [n] consecutive integers from [k] on. *)
Fixpoint count_from (k : Z) (n : nat) : list Z :=
  match n with
  | O => []
  | S n' => k :: count_from (k + 1) n'
  end.

(** The number of the month of a date, counted from year 0. *)
Definition month_index (d0 : Py.date) : Z := Py.year d0 * 12 + Py.month d0.

(** Sum of the columns [Principal] and [Additional_payment]. *)
Definition total_repaid (rows : list row) : Q :=
  fold_right (fun r acc => Principal r + Additional_payment r + acc) 0 rows.

(** Sum of the columns [Payment] and [Additional_payment]. *)
Definition total_paid (rows : list row) : Q :=
  fold_right (fun r acc => Payment r + Additional_payment r + acc) 0 rows.

(** The row of the frame that one dictionary alone gives. *)
Definition agg_of_row (r : row) : agg_row :=
  mkagg_row (Date r) (Begin_balance r) (Payment r) (Principal r) (Interest r)
            (Additional_payment r) (End_balance r).

Definition frame_of_row (r : row) : frame_row :=
  assign_total_payment (agg_of_row r).


(** What every dictionary satisfies: the payment splits into principal and
    interest, the interest is the rounded product of the rate and the
    balance, neither payment exceeds what is owed, and the balance falls by
    the principal and the additional payment. *)
Definition decomposed (d : nat) (r p0 : Q) (row0 : row) : Prop :=
  Principal row0 + Interest row0 == Payment row0 /\
  Interest row0 = Py.round (r * Begin_balance row0) d /\
  Payment row0 <= p0 /\
  Payment row0 <= Begin_balance row0 + Interest row0 /\
  Principal row0 <= Begin_balance row0 /\
  Additional_payment row0 <= Begin_balance row0 - Principal row0 /\
  End_balance row0
  == Begin_balance row0 - Principal row0 - Additional_payment row0.

(** No dictionary carries more interest than the one before it. *)
Fixpoint interest_falls (rows : list row) : Prop :=
  match rows with
  | row1 :: rest =>
      match rest with
      | row2 :: _ => Interest row2 <= Interest row1
      | [] => True
      end /\ interest_falls rest
  | [] => True
  end.

(** ** Further example inputs *)

(** 1000 borrowed for one year at 12%: one percent a month. *)
Definition one_percent_loan : SrcHouse.Mortgage :=
  SrcHouse.mkMortgage 1000 1 (12 # 100) Py.PyNone (3707 # 10000).

(** 100 borrowed for one year at a zero rate, repaid in one period with 100
    of additional payment. *)
Definition one_period_loan : House.Mortgage := House.mkMortgage 100 1 0.


(** * Properties of the primitives *)

Lemma ltb_lt (a b : Q) : Py.ltb a b = true <-> a < b.
Proof. unfold Py.ltb, Qlt. apply Z.ltb_lt. Qed.

Lemma ltb_ge (a b : Q) : Py.ltb a b = false <-> b <= a.
Proof. unfold Py.ltb, Qle. apply Z.ltb_ge. Qed.

Ltac case_ltb :=
  match goal with
  | |- context [Py.ltb ?a ?b] =>
      let E := fresh "E" in
      destruct (Py.ltb a b) eqn:E;
      [apply ltb_lt in E | apply ltb_ge in E]
  | H : context [Py.ltb ?a ?b] |- _ =>
      let E := fresh "E" in
      destruct (Py.ltb a b) eqn:E;
      [apply ltb_lt in E | apply ltb_ge in E]
  end.

Lemma min_le_l (a b : Q) : Py.min a b <= a.
Proof. unfold Py.min. case_ltb; lra. Qed.

Lemma min_le_r (a b : Q) : Py.min a b <= b.
Proof. unfold Py.min. case_ltb; lra. Qed.

Lemma min_glb (a b c : Q) : c <= a -> c <= b -> c <= Py.min a b.
Proof. unfold Py.min. case_ltb; lra. Qed.

Lemma min_cases (a b : Q) :
  (b < a /\ Py.min a b = b) \/ (a <= b /\ Py.min a b = a).
Proof. unfold Py.min. case_ltb; [left | right]; split; auto. Qed.

#[export] Instance ltb_comp : Proper (Qeq ==> Qeq ==> eq) Py.ltb.
Proof.
  intros a a' Ha b b' Hb.
  destruct (Py.ltb a b) eqn:E, (Py.ltb a' b') eqn:E'; auto.
  - apply ltb_lt in E. apply ltb_ge in E'. lra.
  - apply ltb_ge in E. apply ltb_lt in E'. lra.
Qed.

#[export] Instance min_comp : Proper (Qeq ==> Qeq ==> Qeq) Py.min.
Proof.
  intros a a' Ha b b' Hb. unfold Py.min.
  rewrite (ltb_comp _ _ Hb _ _ Ha). destruct (Py.ltb b' a'); auto.
Qed.

Lemma half_even_lower (y : Q) : y - (1 # 2) <= inject_Z (Py.round_half_even y).
Proof.
  unfold Py.round_half_even.
  pose proof (Qfloor_le y) as Hl. pose proof (Qlt_floor y) as Hu.
  rewrite inject_Z_plus in Hu. change (inject_Z 1) with 1 in Hu.
  destruct (Qcompare (y - inject_Z (Qfloor y)) (1 # 2)) eqn:C.
  - rewrite <- Qeq_alt in C. destruct (Z.even (Qfloor y));
      [| rewrite inject_Z_plus; change (inject_Z 1) with 1]; lra.
  - rewrite <- Qlt_alt in C. lra.
  - rewrite inject_Z_plus. change (inject_Z 1) with 1. lra.
Qed.

Lemma half_even_upper (y : Q) : inject_Z (Py.round_half_even y) <= y + (1 # 2).
Proof.
  unfold Py.round_half_even.
  pose proof (Qfloor_le y) as Hl. pose proof (Qlt_floor y) as Hu.
  rewrite inject_Z_plus in Hu. change (inject_Z 1) with 1 in Hu.
  destruct (Qcompare (y - inject_Z (Qfloor y)) (1 # 2)) eqn:C.
  - rewrite <- Qeq_alt in C. destruct (Z.even (Qfloor y));
      [| rewrite inject_Z_plus; change (inject_Z 1) with 1]; lra.
  - lra.
  - rewrite <- Qgt_alt in C. rewrite inject_Z_plus. change (inject_Z 1) with 1. lra.
Qed.

#[export] Instance half_even_comp : Proper (Qeq ==> eq) Py.round_half_even.
Proof.
  intros y y' H. unfold Py.round_half_even.
  rewrite (Qfloor_comp _ _ H).
  assert (Hc : y - inject_Z (Qfloor y') == y' - inject_Z (Qfloor y'))
    by (rewrite H; reflexivity).
  rewrite (Qcompare_comp _ _ Hc _ _ (Qeq_refl (1 # 2))). reflexivity.
Qed.

Lemma half_even_mono (y y' : Q) :
  y <= y' -> (Py.round_half_even y <= Py.round_half_even y')%Z.
Proof.
  intros H.
  destruct (Z_le_gt_dec (Py.round_half_even y) (Py.round_half_even y'))
    as [|G]; auto.
  pose proof (half_even_upper y) as U. pose proof (half_even_lower y') as L.
  assert (G' : inject_Z (Py.round_half_even y') + 1
               <= inject_Z (Py.round_half_even y)).
  { change 1 with (inject_Z 1). rewrite <- inject_Z_plus.
    rewrite <- Zle_Qle. lia. }
  assert (E : y == y') by lra.
  rewrite (half_even_comp _ _ E). lia.
Qed.

Lemma half_even_Z (z : Z) : Py.round_half_even (inject_Z z) = z.
Proof.
  unfold Py.round_half_even. rewrite Qfloor_Z.
  assert (C : Qcompare (inject_Z z - inject_Z z) (1 # 2) = Lt).
  { rewrite <- Qlt_alt. lra. }
  rewrite C. reflexivity.
Qed.

Lemma round_mono (x x' : Q) (d : nat) :
  x <= x' -> Py.round x d <= Py.round x' d.
Proof.
  intros H. unfold Py.round, Qle. simpl.
  apply Z.mul_le_mono_nonneg_r; [lia |].
  apply half_even_mono.
  apply Qmult_le_compat_r; auto. unfold Qle. simpl. lia.
Qed.

#[export] Instance round_comp : Proper (Qeq ==> eq ==> eq) Py.round.
Proof.
  intros x x' H d d' <-. unfold Py.round.
  assert (E : x * inject_Z (Z.pos (Py.scale d))
              == x' * inject_Z (Z.pos (Py.scale d))) by (rewrite H; reflexivity).
  rewrite (half_even_comp _ _ E). reflexivity.
Qed.

Lemma round_0 (d : nat) : Py.round 0 d == 0.
Proof.
  unfold Py.round.
  assert (E : 0 * inject_Z (Z.pos (Py.scale d)) == inject_Z 0) by ring.
  rewrite (half_even_comp _ _ E), half_even_Z. reflexivity.
Qed.

Lemma round_nonneg (x : Q) (d : nat) : 0 <= x -> 0 <= Py.round x d.
Proof. intros H. rewrite <- (round_0 d). apply round_mono; auto. Qed.


Lemma half_even_unique (y : Q) (n : Z) :
  inject_Z n - (1 # 2) < y -> y < inject_Z n + (1 # 2) ->
  Py.round_half_even y = n.
Proof.
  intros L U.
  pose proof (half_even_lower y) as A. pose proof (half_even_upper y) as B.
  assert (H1 : inject_Z (Py.round_half_even y) < inject_Z (n + 1)).
  { rewrite inject_Z_plus. change (inject_Z 1) with 1. lra. }
  assert (H2 : inject_Z n < inject_Z (Py.round_half_even y + 1)).
  { rewrite inject_Z_plus. change (inject_Z 1) with 1. lra. }
  rewrite <- Zlt_Qlt in H1, H2. lia.
Qed.

Lemma round_unique (x : Q) (d : nat) (n : Z) :
  inject_Z n - (1 # 2) < x * inject_Z (Zpos (Py.scale d)) ->
  x * inject_Z (Zpos (Py.scale d)) < inject_Z n + (1 # 2) ->
  Py.round x d = Qmake n (Py.scale d).
Proof.
  intros L U. unfold Py.round. rewrite (half_even_unique _ n L U). reflexivity.
Qed.

Lemma Qpower_base_mono (a b : Q) (n : nat) :
  0 <= a -> a <= b -> a ^ Z.of_nat n <= b ^ Z.of_nat n.
Proof.
  intros Ha Hab. induction n as [| n IH].
  - simpl. lra.
  - rewrite Nat2Z.inj_succ. unfold Z.succ.
    rewrite !Qpower_plus' by lia. rewrite !Qpower_1_r.
    assert (0 <= a ^ Z.of_nat n) by (apply Qpower_0_le; exact Ha).
    apply Qle_trans with (b ^ Z.of_nat n * a).
    + apply Qmult_le_compat_r; auto.
    + rewrite !(Qmult_comm (b ^ Z.of_nat n)).
      apply Qmult_le_compat_r; auto. lra.
Qed.

(** [t / (t - 1)] decreases for [t > 1]. *)
Lemma annuity_factor_antitone (t1 t2 : Q) :
  1 < t1 -> t1 <= t2 -> t2 / (t2 - 1) <= t1 / (t1 - 1).
Proof.
  intros H1 H12.
  apply Qle_shift_div_l; [lra |].
  assert (E : t2 / (t2 - 1) * (t1 - 1) == t2 * (t1 - 1) / (t2 - 1))
    by (field; lra).
  rewrite E. apply Qle_shift_div_r; [lra |].
  assert (E2 : t2 * (t1 - 1) == t1 * (t2 - 1) - (t2 - t1)) by ring.
  rewrite E2. lra.
Qed.

(** * Properties of the loop *)

Section LoopFacts.

Variable d : nat.
Variable r : Q.

Lemma next_stopped (l : locals) :
  end_balance l <= 0 -> next d r l = None.
Proof.
  intros H. unfold next.
  destruct (Py.ltb 0 (end_balance l)) eqn:E; auto.
  apply ltb_lt in E. lra.
Qed.

Lemma next_running (l : locals) :
  0 < end_balance l -> next d r l = Some (loop_body d r l).
Proof.
  intros H. unfold next.
  destruct (Py.ltb 0 (end_balance l)) eqn:E; auto.
  apply ltb_ge in E. lra.
Qed.


(** The principal component never exceeds the balance. *)
Lemma body_principal_le (l : locals) :
  Principal (fst (loop_body d r l)) <= beg_balance l.
Proof.
  unfold loop_body; simpl.
  pose proof (min_le_r (pmt l)
                (beg_balance l + Py.round (r * beg_balance l) d)).
  lra.
Qed.

Lemma body_end_nonneg (l : locals) :
  0 <= End_balance (fst (loop_body d r l)).
Proof.
  unfold loop_body; simpl.
  set (p := Py.min (pmt l) _ - _).
  pose proof (min_le_r (adp l) (beg_balance l - p)).
  lra.
Qed.


(** A clipped payment pays the loan off when the additional payment is not
    negative. *)
Lemma body_pmt_clipped (l : locals) :
  let row0 := fst (loop_body d r l) in
  0 <= adp l -> ~ Payment row0 == pmt l -> End_balance row0 == 0.
Proof.
  unfold loop_body; simpl.
  set (i := Py.round (r * beg_balance l) d). intros Hadp H.
  destruct (min_cases (pmt l) (beg_balance l + i)) as [[_ E] | [_ E]];
    rewrite E in *.
  - destruct (min_cases (adp l) (beg_balance l - (beg_balance l + i - i)))
      as [[_ E'] | [G E']]; rewrite E'; lra.
  - exfalso. apply H. reflexivity.
Qed.

Lemma body_adp_nonneg (l : locals) :
  0 <= adp l -> 0 <= Additional_payment (fst (loop_body d r l)).
Proof.
  intros H. pose proof (body_principal_le l) as P. revert P.
  unfold loop_body; simpl. intros P.
  apply min_glb; auto. lra.
Qed.

Lemma exhaust_stopped (fuel : nat) (l : locals) :
  end_balance l <= 0 -> exhaust d r fuel l = Some [].
Proof.
  intros H. destruct fuel; simpl; rewrite (next_stopped l H); reflexivity.
Qed.

Lemma exhaust_step (fuel : nat) (l : locals) :
  0 < end_balance l ->
  exhaust d r (S fuel) l
  = option_map (cons (fst (loop_body d r l)))
               (exhaust d r fuel (snd (loop_body d r l))).
Proof.
  intros H.
  change (exhaust d r (S fuel) l)
    with (match next d r l with
          | None => Some []
          | Some (r0, l') => option_map (cons r0) (exhaust d r fuel l')
          end).
  rewrite (next_running l H). reflexivity.
Qed.

Lemma islice_step (n : nat) (l : locals) :
  0 < end_balance l ->
  islice d r (S n) l
  = fst (loop_body d r l) :: islice d r n (snd (loop_body d r l)).
Proof.
  intros H.
  change (islice d r (S n) l)
    with (match next d r l with
          | None => []
          | Some (r0, l') => r0 :: islice d r n l'
          end).
  rewrite (next_running l H). reflexivity.
Qed.

Lemma islice_stopped (n : nat) (l : locals) :
  end_balance l <= 0 -> islice d r n l = [].
Proof.
  intros H. destruct n; simpl; auto. rewrite (next_stopped l H). reflexivity.
Qed.



Lemma exhaust_nil_inv (fuel : nat) (l : locals) :
  exhaust d r fuel l = Some [] -> end_balance l <= 0.
Proof.
  destruct (Qlt_le_dec 0 (end_balance l)) as [G | G]; auto.
  destruct fuel.
  - simpl. rewrite (next_running l G). discriminate.
  - rewrite (exhaust_step fuel l G).
    destruct (exhaust d r fuel (snd (loop_body d r l))); discriminate.
Qed.










(** The date does not enter any other field. *)
Lemma islice_undated (n : nat) :
  forall (p a : Q) (k : Z) (b e : Q) (dt1 dt2 : Py.date),
    map undated (islice d r n (mklocals p a k b e dt1))
    = map undated (islice d r n (mklocals p a k b e dt2)).
Proof.
  induction n as [| n IH]; intros p a k b e dt1 dt2; [reflexivity |].
  simpl. unfold next. simpl.
  destruct (Py.ltb 0 e); [| reflexivity].
  unfold loop_body. simpl. f_equal. apply IH.
Qed.

End LoopFacts.

(** * Counting on reduced fractions *)

Lemma reduce_same (l : locals) : same_numbers (reduce l) l.
Proof. unfold same_numbers, reduce. simpl. repeat split; apply Qred_correct. Qed.

Lemma body_same (d : nat) (r : Q) (l l' : locals) :
  same_numbers l l' ->
  same_numbers (snd (loop_body d r l)) (snd (loop_body d r l')).
Proof.
  intros (P & A & B & E). unfold same_numbers, loop_body. simpl.
  assert (I : Py.round (r * beg_balance l) d = Py.round (r * beg_balance l') d).
  { apply round_comp; [rewrite B; reflexivity | reflexivity]. }
  rewrite I.
  set (i := Py.round (r * beg_balance l') d).
  assert (P' : Py.min (pmt l) (beg_balance l + i)
               == Py.min (pmt l') (beg_balance l' + i))
    by (rewrite P, B; reflexivity).
  assert (A' : Py.min (adp l)
                 (beg_balance l - (Py.min (pmt l) (beg_balance l + i) - i))
               == Py.min (adp l')
                    (beg_balance l'
                     - (Py.min (pmt l') (beg_balance l' + i) - i)))
    by (rewrite P', A, B; reflexivity).
  assert (E' : beg_balance l
               - (Py.min (pmt l) (beg_balance l + i) - i
                  + Py.min (adp l)
                      (beg_balance l
                       - (Py.min (pmt l) (beg_balance l + i) - i)))
               == beg_balance l'
                  - (Py.min (pmt l') (beg_balance l' + i) - i
                     + Py.min (adp l')
                         (beg_balance l'
                          - (Py.min (pmt l') (beg_balance l' + i) - i))))
    by (rewrite A', P', B; reflexivity).
  auto.
Qed.

Lemma exhaust_length_same (d : nat) (r : Q) (fuel : nat) :
  forall l l' : locals,
    same_numbers l l' ->
    option_map (@length row) (exhaust d r fuel l)
    = option_map (@length row) (exhaust d r fuel l').
Proof.
  induction fuel as [| fuel IH]; intros l l' Hs;
    pose proof Hs as (_ & _ & _ & E);
    destruct (Qlt_le_dec 0 (end_balance l)) as [G | G].
  - simpl. rewrite (next_running d r l G).
    rewrite (next_running d r l') by (rewrite <- E; exact G). reflexivity.
  - rewrite (exhaust_stopped d r 0 l G).
    rewrite (exhaust_stopped d r 0 l') by (rewrite <- E; exact G).
    reflexivity.
  - rewrite (exhaust_step d r fuel l G).
    rewrite (exhaust_step d r fuel l') by (rewrite <- E; exact G).
    pose proof (IH _ _ (body_same d r l l' Hs)) as H.
    destruct (exhaust d r fuel (snd (loop_body d r l)));
      destruct (exhaust d r fuel (snd (loop_body d r l')));
      simpl in *; congruence.
  - rewrite (exhaust_stopped d r (S fuel) l G).
    rewrite (exhaust_stopped d r (S fuel) l') by (rewrite <- E; exact G).
    reflexivity.
Qed.

Lemma count_periods_spec (d : nat) (r : Q) (fuel : nat) :
  forall l : locals,
    count_periods d r fuel l = option_map (@length row) (exhaust d r fuel l).
Proof.
  induction fuel as [| fuel IH]; intros l;
    destruct (Qlt_le_dec 0 (end_balance l)) as [G | G].
  - simpl. rewrite (next_running d r l G). reflexivity.
  - rewrite (exhaust_stopped d r 0 l G). simpl.
    rewrite (next_stopped d r l G). reflexivity.
  - rewrite (exhaust_step d r fuel l G).
    change (count_periods d r (S fuel) l)
      with (match next d r l with
            | None => Some O
            | Some (_, l') =>
                option_map S (count_periods d r fuel (reduce l'))
            end).
    rewrite (next_running d r l G).
    change (option_map S
              (count_periods d r fuel (reduce (snd (loop_body d r l))))
            = option_map (@length row)
                (option_map (cons (fst (loop_body d r l)))
                   (exhaust d r fuel (snd (loop_body d r l))))).
    rewrite IH.
    rewrite (exhaust_length_same d r fuel _ _
               (reduce_same (snd (loop_body d r l)))).
    destruct (exhaust d r fuel (snd (loop_body d r l))); reflexivity.
  - rewrite (exhaust_stopped d r (S fuel) l G). simpl.
    rewrite (next_stopped d r l G). reflexivity.
Qed.


(** * Properties of the twelfth root *)

Lemma iroot_bits_spec (k : positive) (x : Z) :
  forall (bits : nat) (acc : Z),
    (0 <= acc)%Z ->
    (acc ^ Zpos k <= x < (acc + 2 ^ Z.of_nat bits) ^ Zpos k)%Z ->
    (0 <= Py.iroot_bits k x bits acc)%Z /\
    (Py.iroot_bits k x bits acc ^ Zpos k <= x
     < (Py.iroot_bits k x bits acc + 1) ^ Zpos k)%Z.
Proof.
  induction bits as [| b IH]; intros acc Hacc H.
  - simpl in *. auto.
  - cbn [Py.iroot_bits]. cbv zeta.
    rewrite Nat2Z.inj_succ, Z.pow_succ_r in H by lia.
    assert (P : (0 < 2 ^ Z.of_nat b)%Z) by (apply Z.pow_pos_nonneg; lia).
    destruct (Z.leb_spec ((acc + 2 ^ Z.of_nat b) ^ Zpos k) x) as [L | L].
    + apply IH; [lia |]. split; [exact L |].
      replace (acc + 2 ^ Z.of_nat b + 2 ^ Z.of_nat b)%Z
        with (acc + 2 * 2 ^ Z.of_nat b)%Z by ring.
      apply H.
    + apply IH; [lia |]. split; [apply H | exact L].
Qed.

Lemma iroot_spec (k : positive) (x : Z) :
  (0 <= x)%Z ->
  (0 <= Py.iroot k x)%Z /\
  (Py.iroot k x ^ Zpos k <= x < (Py.iroot k x + 1) ^ Zpos k)%Z.
Proof.
  intros Hx. unfold Py.iroot. apply iroot_bits_spec; [lia |].
  rewrite Z.pow_0_l by lia. split; [exact Hx |].
  rewrite Z.add_0_l.
  set (b := (Z.log2 x / Zpos k + 1)%Z).
  assert (Hb : (0 <= Z.log2 x / Zpos k)%Z).
  { apply Z.div_pos; [apply Z.log2_nonneg | lia]. }
  rewrite Z2Nat.id by (unfold b; lia).
  rewrite <- Z.pow_mul_r by (unfold b; lia).
  assert (Hk : (Z.log2 x < b * Zpos k)%Z).
  { unfold b.
    pose proof (Z.mul_succ_div_gt (Z.log2 x) (Zpos k) ltac:(lia)). lia. }
  destruct (Z.eq_dec x 0) as [-> | Hn].
  - apply Z.pow_pos_nonneg; lia.
  - apply Z.lt_le_trans with (2 ^ Z.succ (Z.log2 x))%Z.
    + apply Z.log2_spec. lia.
    + apply Z.pow_le_mono_r; lia.
Qed.

Lemma iroot_ge (k : positive) (x c : Z) :
  (0 <= c)%Z -> (c ^ Zpos k <= x)%Z -> (c <= Py.iroot k x)%Z.
Proof.
  intros Hc H.
  assert (Hx : (0 <= x)%Z).
  { apply Z.le_trans with (c ^ Zpos k)%Z; auto. apply Z.pow_nonneg. exact Hc. }
  destruct (iroot_spec k x Hx) as (Hr & _ & Hu).
  destruct (Z_le_gt_dec c (Py.iroot k x)) as [| G]; auto.
  assert ((Py.iroot k x + 1) ^ Zpos k <= c ^ Zpos k)%Z
    by (apply Z.pow_le_mono_l; lia).
  lia.
Qed.

(** The truncated root of a number that is at least [1] is at least [1]. *)
Lemma pow_twelfth_ge_1 (x : Q) : 1 <= x -> 1 <= Py.pow_twelfth x.
Proof.
  intros H. unfold Py.pow_twelfth.
  set (s := (10 ^ Py.root_digits)%Z).
  assert (Hs : (0 < s)%Z) by (apply Z.pow_pos_nonneg; unfold Py.root_digits; lia).
  assert (E : (10 ^ (12 * Py.root_digits))%Z = (s ^ 12)%Z).
  { unfold s. rewrite <- Z.pow_mul_r by (unfold Py.root_digits; lia).
    f_equal; ring. }
  rewrite E.
  assert (L : (s <= Py.iroot 12 (Qfloor (x * inject_Z (s ^ 12))))%Z).
  { apply iroot_ge; [lia |].
    rewrite <- (Qfloor_Z (s ^ 12)) at 1. apply Qfloor_resp_le.
    assert (P : 0 <= inject_Z (s ^ 12)).
    { rewrite <- (Zle_Qle 0). apply Z.pow_nonneg. lia. }
    rewrite <- (Qmult_1_l (inject_Z (s ^ 12))) at 1.
    apply Qmult_le_compat_r; auto. }
  unfold Qle. cbn [Qnum Qden]. rewrite Z2Pos.id by exact Hs. lia.
Qed.



(** * Properties of the rates and of the payment *)

Lemma house_amortizdict_rate_nonneg (self : House.Mortgage) :
  0 <= House.rate self -> 0 <= House.amortizdict_rate self.
Proof.
  intros H. unfold House.amortizdict_rate. cbv zeta.
  assert (G : 1 <= 1 + ((1 + House.rate self / 2) ^ 2 - 1)).
  { simpl. set (b := 1 + House.rate self / 2).
    assert (1 <= b)
      by (unfold b, Qdiv; change (/ 2) with (1 # 2); lra).
    assert (0 <= (b - 1) * (b + 1)) by (apply Qmult_le_0_compat; lra).
    assert (E : (b - 1) * (b + 1) == b * b - 1) by ring.
    lra. }
  apply pow_twelfth_ge_1 in G. lra.
Qed.

Lemma house_monthly_payment_rate_nonneg (self : House.Mortgage) :
  0 <= House.rate self -> 0 <= House.monthly_payment_rate self.
Proof.
  intros H. unfold House.monthly_payment_rate. cbv zeta.
  assert (G : 1 <= 1 + House.rate self) by lra.
  apply pow_twelfth_ge_1 in G. lra.
Qed.

Lemma srchouse_rate_nonneg (self : SrcHouse.Mortgage) :
  0 <= SrcHouse.rate self -> 0 <= SrcHouse.periodic_interest_rate self.
Proof.
  intros H. unfold SrcHouse.periodic_interest_rate, Qdiv.
  change (/ 12) with (1 # 12). lra.
Qed.

(** For a principal that is not positive [npf.pmt] is not negative. *)
Lemma npf_pmt_nonneg (p : Q) (n : Z) (pv : Q) :
  0 <= p -> (0 < n)%Z -> pv <= 0 -> 0 <= Npf.pmt p n pv.
Proof.
  intros Hp Hn Hpv. unfold Npf.pmt. cbv zeta.
  assert (Ht : 0 < (1 + p) ^ n) by (apply Qpower_0_lt; lra).
  set (temp := (1 + p) ^ n) in *.
  assert (Hnum : 0 <= - (pv * temp)).
  { assert (0 <= (- pv) * temp) by (apply Qmult_le_0_compat; lra).
    assert (E : (- pv) * temp == - (pv * temp)) by ring. lra. }
  assert (Hf : 0 < (if Qeq_bool p 0 then inject_Z n else (temp - 1) / p)).
  { destruct (Qeq_bool p 0) eqn:E.
    - rewrite <- (Zlt_Qlt 0). exact Hn.
    - apply Qeq_bool_neq in E.
      assert (Hp' : 0 < p).
      { destruct (Qlt_le_dec 0 p) as [| L]; auto.
        exfalso. apply E. lra. }
      apply Qlt_shift_div_l; auto.
      assert (1 < temp) by (apply Qpower_1_lt; [lra | exact Hn]).
      lra. }
  apply Qle_shift_div_l; auto. lra.
Qed.

(** * Termination *)


(** ** The two classes in terms of the loop *)

Lemma house_monthly_payment_returns (self : House.Mortgage) :
  exists pmt0, House.monthly_payment self = Py.Returns pmt0.
Proof. eexists. reflexivity. Qed.

Lemma srchouse_monthly_payment_returns (self : SrcHouse.Mortgage) :
  exists pmt0, SrcHouse.monthly_payment self = Py.Returns pmt0.
Proof. eexists. reflexivity. Qed.

Lemma house_schedule_eq (self : House.Mortgage) (adp : Q) (today : Py.date)
      (fuel : nat) (pmt0 : Q) :
  House.monthly_payment self = Py.Returns pmt0 ->
  House.schedule self adp today fuel
  = option_map Py.Returns
      (exhaust House.ndigits (House.amortizdict_rate self) fuel
         (mklocals pmt0 adp 1 (House.principal self) (House.principal self)
                   (Py.add_month (Py.replace_day1 today)))).
Proof.
  intros E. unfold House.schedule, House.amortizdict. rewrite E. reflexivity.
Qed.

Lemma srchouse_schedule_eq (self : SrcHouse.Mortgage) (adp : Q)
      (today : Py.date) (fuel : nat) (pmt0 : Q) :
  SrcHouse.monthly_payment self = Py.Returns pmt0 ->
  SrcHouse.schedule self adp today fuel
  = option_map Py.Returns
      (exhaust SrcHouse.ndigits (SrcHouse.periodic_interest_rate self) fuel
         (mklocals pmt0 adp 1 (SrcHouse.principal self)
                   (SrcHouse.principal self)
                   (Py.add_month (Py.replace_day1 today)))).
Proof.
  intros E. unfold SrcHouse.schedule, SrcHouse.amortizdict. rewrite E.
  reflexivity.
Qed.

Lemma house_prefix_eq (self : House.Mortgage) (adp : Q) (today : Py.date)
      (n : nat) (pmt0 : Q) :
  House.monthly_payment self = Py.Returns pmt0 ->
  House.schedule_prefix self adp today n
  = Py.Returns
      (islice House.ndigits (House.amortizdict_rate self) n
         (mklocals pmt0 adp 1 (House.principal self) (House.principal self)
                   (Py.add_month (Py.replace_day1 today)))).
Proof.
  intros E. unfold House.schedule_prefix, House.amortizdict. rewrite E.
  reflexivity.
Qed.

Lemma srchouse_prefix_eq (self : SrcHouse.Mortgage) (adp : Q)
      (today : Py.date) (n : nat) (pmt0 : Q) :
  SrcHouse.monthly_payment self = Py.Returns pmt0 ->
  SrcHouse.schedule_prefix self adp today n
  = Py.Returns
      (islice SrcHouse.ndigits (SrcHouse.periodic_interest_rate self) n
         (mklocals pmt0 adp 1 (SrcHouse.principal self)
                   (SrcHouse.principal self)
                   (Py.add_month (Py.replace_day1 today)))).
Proof.
  intros E. unfold SrcHouse.schedule_prefix, SrcHouse.amortizdict. rewrite E.
  reflexivity.
Qed.

Lemma returns_some_inv {A : Type} (e : option A) (a : A) :
  option_map Py.Returns e = Some (Py.Returns a) -> e = Some a.
Proof. destruct e; simpl; intros H; [injection H as -> | discriminate]; auto. Qed.







(** * No bound on the number of periods *)





(** * The additional payment *)



(** * More additional payment, shorter schedule *)





(** * The length of the schedule *)


Lemma small_loan_payment :
  SrcHouse.monthly_payment small_loan = Py.Returns 100.
Proof. vm_compute. reflexivity. Qed.





(** * The date *)

Lemma islice_dates (d : nat) (r : Q) (n : nat) :
  forall l : locals,
    map Date (islice d r n l)
    = months_from (start_date l) (length (islice d r n l)).
Proof.
  induction n as [| n IH]; intros l; [reflexivity |].
  destruct (Qlt_le_dec 0 (end_balance l)) as [G | G].
  - rewrite (islice_step d r n l G). cbn [map length months_from].
    f_equal. apply (IH (snd (loop_body d r l))).
  - rewrite (islice_stopped d r (S n) l G). reflexivity.
Qed.

(** C10 (amended).  The schedule is a function of the loan, of the
    additional payment and of the month of the current date: the dates are
    the consecutive months after the current one, the other fields do not
    depend on the current date, and two current dates of the same month give
    identical schedules. *)
Theorem schedule_depends_on_month
        (principal : Q) (years : Z) (rate : Q) (income : Py.obj)
        (addl_pmt : Q) (day1 day2 : Py.date) (n : nat) :
  let h := House.mkMortgage principal years rate in
  let s := SrcHouse.mkMortgage principal years rate income (3707 # 10000) in
  (exists rows1 rows2,
      House.schedule_prefix h addl_pmt day1 n = Py.Returns rows1 /\
      House.schedule_prefix h addl_pmt day2 n = Py.Returns rows2 /\
      map Date rows1
      = months_from (Py.add_month (Py.replace_day1 day1)) (length rows1) /\
      map undated rows1 = map undated rows2 /\
      (Py.year day1 = Py.year day2 -> Py.month day1 = Py.month day2 ->
       rows1 = rows2)) /\
  (exists rows1 rows2,
      SrcHouse.schedule_prefix s addl_pmt day1 n = Py.Returns rows1 /\
      SrcHouse.schedule_prefix s addl_pmt day2 n = Py.Returns rows2 /\
      map Date rows1
      = months_from (Py.add_month (Py.replace_day1 day1)) (length rows1) /\
      map undated rows1 = map undated rows2 /\
      (Py.year day1 = Py.year day2 -> Py.month day1 = Py.month day2 ->
       rows1 = rows2)).
Proof.
  intros h s.
  assert (M : Py.year day1 = Py.year day2 -> Py.month day1 = Py.month day2 ->
              Py.replace_day1 day1 = Py.replace_day1 day2).
  { intros Y Mo. unfold Py.replace_day1. rewrite Y, Mo. reflexivity. }
  destruct (house_monthly_payment_returns h) as [p E].
  destruct (srchouse_monthly_payment_returns s) as [p' E'].
  split; eexists; eexists.
  - rewrite (house_prefix_eq h addl_pmt day1 n p E).
    rewrite (house_prefix_eq h addl_pmt day2 n p E).
    split; [reflexivity | split; [reflexivity |]].
    split; [apply islice_dates | split; [apply islice_undated |]].
    intros Y Mo. rewrite (M Y Mo). reflexivity.
  - rewrite (srchouse_prefix_eq s addl_pmt day1 n p' E').
    rewrite (srchouse_prefix_eq s addl_pmt day2 n p' E').
    split; [reflexivity | split; [reflexivity |]].
    split; [apply islice_dates | split; [apply islice_undated |]].
    intros Y Mo. rewrite (M Y Mo). reflexivity.
Qed.

(** The theorem above at [small_loan], for two days of January 2024. *)
Lemma schedule_depends_on_month_witness :
  exists rows1 rows2,
    SrcHouse.schedule_prefix small_loan 0 today0 12 = Py.Returns rows1 /\
    SrcHouse.schedule_prefix small_loan 0 today0_later 12
    = Py.Returns rows2 /\
    rows1 = rows2.
Proof.
  destruct (schedule_depends_on_month 1200 1 0 Py.PyNone 0 today0 today0_later
              12)
    as [_ (rows1 & rows2 & X1 & X2 & _ & _ & I)].
  exists rows1, rows2. split; [exact X1 | split; [exact X2 |]].
  apply I; reflexivity.
Defined.

Lemma small_loan_first_rows :
  exists row1 row2,
    SrcHouse.schedule_prefix small_loan 0 today0 1 = Py.Returns [row1] /\
    SrcHouse.schedule_prefix small_loan 0 today1 1 = Py.Returns [row2] /\
    Date row1 = Py.mkdate 2024 2 1 /\
    Date row2 = Py.mkdate 2024 3 1.
Proof.
  eexists. eexists.
  split; [vm_compute; reflexivity |].
  split; [vm_compute; reflexivity |].
  split; reflexivity.
Qed.

(** C10, counterexample.  The same loan computed on 15 January 2024 and on
    15 February 2024: the first dictionaries are dated 1 February and 1 March,
    so the two schedules differ. *)
Lemma schedule_differs_with_the_clock :
  exists row1 row2,
    SrcHouse.schedule_prefix small_loan 0 today0 1 = Py.Returns [row1] /\
    SrcHouse.schedule_prefix small_loan 0 today1 1 = Py.Returns [row2] /\
    Date row1 <> Date row2 /\
    SrcHouse.schedule_prefix small_loan 0 today0 1
    <> SrcHouse.schedule_prefix small_loan 0 today1 1.
Proof.
  destruct small_loan_first_rows as (row1 & row2 & X1 & X2 & D1 & D2).
  exists row1, row2.
  assert (N : Date row1 <> Date row2) by (rewrite D1, D2; discriminate).
  repeat split; auto.
  rewrite X1, X2. intros [= H]. apply N. rewrite H. reflexivity.
Qed.

(** * No validation *)






(** * The tax deduction *)

Lemma combine_map_snd {A B : Type} (xs : list A) (ys : list B) :
  length xs = length ys -> map snd (combine xs ys) = ys.
Proof.
  revert ys. induction xs as [| x xs IH]; intros [| y ys]; simpl;
    try discriminate; auto.
  intros [= H]. f_equal. auto.
Qed.

Lemma combine_map_fst {A B : Type} (xs : list A) (ys : list B) :
  length xs = length ys -> map fst (combine xs ys) = xs.
Proof.
  revert ys. induction xs as [| x xs IH]; intros [| y ys]; simpl;
    try discriminate; auto.
  intros [= H]. f_equal. auto.
Qed.

(** With a sequence of non-zero incomes of the length of the frame, every
    row carries the rounded deduction, the interest plus the deduction, and
    the payment plus the deduction. *)
Lemma tax_overlay_present (self : SrcHouse.Mortgage) (income : list Q)
      (df : list frame_row) :
  SrcHouse.monthly_fictitious_income self = Py.PySeq income ->
  forallb (fun x => negb (Qeq_bool x 0)) income = true ->
  length income = length df ->
  exists rows,
    SrcHouse.tax_overlay self df = Py.Returns rows /\
    map SrcHouse.t_row rows = map f_row df /\
    map SrcHouse.Tax_deduction rows
    = map (fun p : Q * frame_row =>
             Py.round (SrcHouse.deduction_rate self
                       * (fst p - a_Interest (f_row (snd p)))) 0)
          (combine income df) /\
    Forall (fun t =>
              SrcHouse.Net_interest t
              = a_Interest (SrcHouse.t_row t) + SrcHouse.Tax_deduction t)
           rows /\
    map SrcHouse.t_total_payment rows
    = map (fun p : frame_row * Q => total_payment (fst p) + snd p)
          (combine df (map SrcHouse.Tax_deduction rows)).
Proof.
  intros I A L. unfold SrcHouse.tax_overlay, SrcHouse.tax_deduction.
  rewrite I. cbn [Py.all Py.bind]. rewrite A.
  rewrite (proj2 (Nat.eqb_eq _ _) L). cbn [Py.bind].
  set (col := map _ (combine income df)).
  assert (Lc : length df = length col).
  { unfold col. rewrite length_map, length_combine, L. lia. }
  eexists. split; [reflexivity |].
  assert (T : map SrcHouse.Tax_deduction (map SrcHouse.add_tax (combine df col))
              = col).
  { rewrite map_map. cbn [SrcHouse.add_tax SrcHouse.Tax_deduction].
    apply combine_map_snd. exact Lc. }
  split; [| split; [exact T | split]].
  - rewrite map_map. cbn [SrcHouse.add_tax SrcHouse.t_row].
    rewrite <- (map_map fst f_row). rewrite combine_map_fst by exact Lc.
    reflexivity.
  - apply Forall_forall. intros t Ht. apply in_map_iff in Ht.
    destruct Ht as (q & <- & _). reflexivity.
  - rewrite T. rewrite map_map. reflexivity.
Qed.

(** Without an income [amortize] never returns a frame. *)
Lemma amortize_without_income (self : SrcHouse.Mortgage) (addl_pmt : Q)
      (today : Py.date) (fuel : nat) (rows : list SrcHouse.tax_row) :
  SrcHouse.monthly_fictitious_income self = Py.PyNone ->
  SrcHouse.amortize self addl_pmt today fuel <> Some (Py.Returns rows).
Proof.
  intros I. destruct (srchouse_monthly_payment_returns self) as [p E].
  unfold SrcHouse.amortize.
  rewrite (srchouse_schedule_eq self addl_pmt today fuel p E).
  destruct (exhaust _ _ _ _) as [sched |]; [| discriminate].
  cbn [option_map Py.bind]. destruct (build_frame sched); cbn [Py.bind].
  - unfold SrcHouse.tax_overlay. rewrite I. discriminate.
  - discriminate.
Qed.

(** C9, failing input.  [small_loan] is built without
    [monthly_fictitious_income]; its twelve periods are computed, and
    [amortize] then raises [TypeError] instead of returning them. *)
Theorem amortize_without_income_raises :
  (exists rows,
      SrcHouse.schedule small_loan 0 today0 20 = Some (Py.Returns rows) /\
      length rows = 12%nat) /\
  SrcHouse.amortize small_loan 0 today0 20 = Some (Py.Raises Py.TypeError).
Proof.
  split.
  - eexists. split; [vm_compute; reflexivity | reflexivity].
  - vm_compute. reflexivity.
Qed.

(** * The scenario of the specification *)

Lemma scenario_root_bounds :
  scenario_lower <= Py.pow_twelfth (1 + (4 # 100)) ^ 12 /\
  Py.pow_twelfth (1 + (4 # 100)) ^ 12 <= scenario_upper.
Proof. split; apply Qle_bool_imp_le; vm_compute; reflexivity. Qed.

Lemma scenario_rate_positive : 0 < House.monthly_payment_rate scenario_loan.
Proof. apply ltb_lt. vm_compute. reflexivity. Qed.

Lemma scenario_temp_bounds :
  scenario_lower ^ 30
  <= (1 + House.monthly_payment_rate scenario_loan) ^ 360 /\
  (1 + House.monthly_payment_rate scenario_loan) ^ 360 <= scenario_upper ^ 30.
Proof.
  destruct scenario_root_bounds as [L U].
  set (a := Py.pow_twelfth (1 + (4 # 100))) in *.
  assert (E : (1 + House.monthly_payment_rate scenario_loan) ^ 360
              == (a ^ 12) ^ 30).
  { change 360%Z with (12 * 30)%Z. rewrite Qpower_mult.
    assert (E1 : 1 + House.monthly_payment_rate scenario_loan == a).
    { unfold House.monthly_payment_rate. cbv zeta.
      change (House.rate scenario_loan) with (4 # 100). fold a. ring. }
    rewrite E1. reflexivity. }
  rewrite E. split.
  - apply (Qpower_base_mono _ _ 30); [| exact L].
    apply Qle_bool_imp_le. vm_compute. reflexivity.
  - apply (Qpower_base_mono _ _ 30); [| exact U].
    apply Qle_trans with scenario_lower; [| exact L].
    apply Qle_bool_imp_le. vm_compute. reflexivity.
Qed.

Lemma scenario_factor_bounds :
  1 < scenario_lower ^ 30 /\
  (14199050 # 10000)
  < 300000 * House.monthly_payment_rate scenario_loan
    * (scenario_upper ^ 30 / (scenario_upper ^ 30 - 1)) /\
  300000 * House.monthly_payment_rate scenario_loan
  * (scenario_lower ^ 30 / (scenario_lower ^ 30 - 1))
  < (14199150 # 10000).
Proof. split; [| split]; apply ltb_lt; vm_compute; reflexivity. Qed.

Lemma scenario_pmt_bounds :
  inject_Z (-141991) - (1 # 2)
  < Npf.pmt (House.monthly_payment_rate scenario_loan) 360 300000
    * inject_Z (Zpos (Py.scale 2)) /\
  Npf.pmt (House.monthly_payment_rate scenario_loan) 360 300000
  * inject_Z (Zpos (Py.scale 2))
  < inject_Z (-141991) + (1 # 2).
Proof.
  destruct scenario_temp_bounds as [TL TU].
  destruct scenario_factor_bounds as (L1 & FL & FU).
  pose proof scenario_rate_positive as Hp.
  unfold Npf.pmt. cbv zeta.
  set (p := House.monthly_payment_rate scenario_loan) in *.
  set (temp := (1 + p) ^ 360) in *.
  set (lo := scenario_lower ^ 30) in *.
  set (hi := scenario_upper ^ 30) in *.
  assert (Z : Qeq_bool p 0 = false).
  { apply not_true_is_false. intros E. apply Qeq_bool_eq in E. lra. }
  rewrite Z.
  assert (T1 : 1 < temp) by lra.
  assert (E : - (300000 * temp) / ((temp - 1) / p)
              == - (300000 * p * (temp / (temp - 1)))) by (field; lra).
  rewrite E.
  pose proof (annuity_factor_antitone lo temp L1 TL) as A1.
  pose proof (annuity_factor_antitone temp hi T1 TU) as A2.
  assert (Hc : 0 < 300000 * p).
  { apply Qmult_lt_0_compat; [reflexivity | exact Hp]. }
  assert (B1 : 300000 * p * (hi / (hi - 1))
               <= 300000 * p * (temp / (temp - 1))).
  { rewrite !(Qmult_comm (300000 * p)). apply Qmult_le_compat_r; lra. }
  assert (B2 : 300000 * p * (temp / (temp - 1))
               <= 300000 * p * (lo / (lo - 1))).
  { rewrite !(Qmult_comm (300000 * p)). apply Qmult_le_compat_r; lra. }
  change (inject_Z (Zpos (Py.scale 2))) with 100.
  change (inject_Z (-141991)) with (-141991 # 1).
  set (v := 300000 * p * (temp / (temp - 1))) in *.
  set (vlo := 300000 * p * (hi / (hi - 1))) in *.
  set (vhi := 300000 * p * (lo / (lo - 1))) in *.
  split; lra.
Qed.

Lemma scenario_payment :
  House.monthly_payment scenario_loan = Py.Returns (141991 # 100).
Proof.
  destruct scenario_pmt_bounds as [L U].
  unfold House.monthly_payment. cbv zeta.
  change (House.years scenario_loan * 12)%Z with 360%Z.
  change (House.principal scenario_loan) with 300000.
  rewrite (round_unique _ 2 (-141991) L U). reflexivity.
Qed.

Lemma scenario_rates :
  (32737 # 10000000) < House.monthly_payment_rate scenario_loan /\
  House.monthly_payment_rate scenario_loan < (32738 # 10000000) /\
  (33058 # 10000000) < House.amortizdict_rate scenario_loan /\
  House.amortizdict_rate scenario_loan < (33059 # 10000000).
Proof.
  split; [| split; [| split]]; apply ltb_lt; vm_compute; reflexivity.
Qed.

Lemma scenario_exhaust_length :
  option_map (@length row)
    (exhaust House.ndigits (House.amortizdict_rate scenario_loan) 400
       (mklocals (141991 # 100) 0 1 (House.principal scenario_loan)
                 (House.principal scenario_loan)
                 (Py.add_month (Py.replace_day1 today0))))
  = Some 364%nat.
Proof. rewrite <- count_periods_spec. vm_compute. reflexivity. Qed.

Lemma scenario_schedule :
  exists rows,
    House.schedule scenario_loan 0 today0 400 = Some (Py.Returns rows) /\
    length rows = 364%nat.
Proof.
  rewrite (house_schedule_eq scenario_loan 0 today0 400 _ scenario_payment).
  pose proof scenario_exhaust_length as L.
  destruct (exhaust _ _ _ _) as [rows |]; [| discriminate].
  exists rows. split; [reflexivity |]. injection L as L. exact L.
Qed.

Lemma scenario_first_row (today : Py.date) :
  exists row1,
    House.schedule_prefix scenario_loan 0 today 1 = Py.Returns [row1] /\
    Begin_balance row1 == 300000 /\
    Payment row1 == 141991 # 100 /\
    Interest row1 == 99177 # 100 /\
    Principal row1 == 42814 # 100 /\
    Additional_payment row1 == 0 /\
    End_balance row1 == 29957186 # 100.
Proof.
  rewrite (house_prefix_eq scenario_loan 0 today 1 _ scenario_payment).
  eexists. split; [vm_compute; reflexivity |].
  split; [| split; [| split; [| split; [| split]]]];
    apply Qeq_bool_eq; vm_compute; reflexivity.
Qed.

(** C2, failing input.  For 300000 over thirty years at 4%,
    [monthly_payment] derives its payment from the periodic rate
    [(1 + rate) ** (1 / 12) - 1], about 0.0032737, while [amortizdict]
    accrues interest at [(1 + rate / 2) ** (2 / 12) - 1], about 0.0033059;
    the payment, 1419.91, is too small for the term, and the schedule takes
    more than the 360 periods of the term. *)
Theorem payment_rate_is_not_schedule_rate :
  House.monthly_payment scenario_loan = Py.Returns (141991 # 100) /\
  House.monthly_payment_rate scenario_loan < (32738 # 10000000) /\
  (33058 # 10000000) < House.amortizdict_rate scenario_loan /\
  House.monthly_payment_rate scenario_loan
  < House.amortizdict_rate scenario_loan /\
  exists rows,
    House.schedule scenario_loan 0 today0 400 = Some (Py.Returns rows) /\
    (Z.to_nat (House.years scenario_loan * 12) < length rows)%nat.
Proof.
  destruct scenario_rates as (_ & P & S & _).
  split; [exact scenario_payment |].
  split; [exact P |]. split; [exact S |]. split.
  - apply Qlt_trans with (32738 # 10000000); [exact P |].
    apply Qlt_trans with (33058 # 10000000); [reflexivity | exact S].
  - destruct scenario_schedule as (rows & X & L).
    exists rows. split; [exact X |]. rewrite L.
    change (Z.to_nat (House.years scenario_loan * 12)) with (Z.to_nat 360).
    apply Nat2Z.inj_lt. rewrite Z2Nat.id by lia. reflexivity.
Qed.

(** C3 (amended).  For 300000 over thirty years at 4% with no additional
    payment, the schedule accrues interest at a periodic rate of about
    0.0033059; the first period starts from 300000, has an interest of
    991.77, a principal component of the level payment minus 991.77 and an
    end balance of 300000 minus that principal component. *)
Theorem scenario_first_period (today : Py.date) :
  (33058 # 10000000) < House.amortizdict_rate scenario_loan /\
  House.amortizdict_rate scenario_loan < (33059 # 10000000) /\
  exists pmt0 row1,
    House.monthly_payment scenario_loan = Py.Returns pmt0 /\
    House.schedule_prefix scenario_loan 0 today 1 = Py.Returns [row1] /\
    Begin_balance row1 == 300000 /\
    Interest row1 == 99177 # 100 /\
    Payment row1 == pmt0 /\
    Principal row1 == pmt0 - (99177 # 100) /\
    Additional_payment row1 == 0 /\
    End_balance row1 == 300000 - Principal row1.
Proof.
  destruct scenario_rates as (_ & _ & S1 & S2).
  destruct (scenario_first_row today) as (row1 & X & B & P & I & Pr & A & E).
  split; [exact S1 |]. split; [exact S2 |].
  exists (141991 # 100), row1.
  split; [exact scenario_payment |].
  split; [exact X |].
  split; [exact B |].
  split; [exact I |].
  split; [exact P |].
  split; [rewrite Pr; reflexivity |].
  split; [exact A |].
  rewrite E, Pr. reflexivity.
Qed.

(** C3, counterexample.  For that input the level payment is 1419.91, more
    than 12 away from 1432.25; the first interest is 991.77, more than 10
    away from 981.00; the first principal component is 428.14 and the first
    end balance 299571.86, more than 23 away from 451.25 and 299548.75; and
    the schedule has 364 periods, not 360. *)
Lemma scenario_is_not_as_specified :
  exists pmt0 row1 rows,
    House.monthly_payment scenario_loan = Py.Returns pmt0 /\
    House.schedule_prefix scenario_loan 0 today0 1 = Py.Returns [row1] /\
    House.schedule scenario_loan 0 today0 400 = Some (Py.Returns rows) /\
    12 < Qabs (pmt0 - (143225 # 100)) /\
    10 < Qabs (Interest row1 - 981) /\
    23 < Qabs (Principal row1 - (45125 # 100)) /\
    23 < Qabs (End_balance row1 - (29954875 # 100)) /\
    length rows = 364%nat /\ length rows <> 360%nat.
Proof.
  destruct (scenario_first_row today0) as (row1 & X & B & P & I & Pr & A & E).
  destruct scenario_schedule as (rows & S & L).
  exists (141991 # 100), row1, rows.
  split; [exact scenario_payment |].
  split; [exact X |].
  split; [exact S |].
  rewrite I, Pr, E, L.
  split; [reflexivity |]. split; [reflexivity |]. split; [reflexivity |].
  split; [reflexivity |]. split; [reflexivity | discriminate].
Qed.

(** * Further properties of the loop *)

Section ScheduleFacts.

Variable d : nat.
Variable r : Q.

Lemma islice_continuous (n : nat) :
  forall l : locals,
    beg_balance l = end_balance l ->
    continuous (beg_balance l) (islice d r n l).
Proof.
  induction n as [| n IH]; intros l Hbe; [exact I |].
  destruct (Qlt_le_dec 0 (end_balance l)) as [G | G].
  - rewrite (islice_step d r n l G). split; [reflexivity |].
    apply (IH (snd (loop_body d r l))). reflexivity.
  - rewrite (islice_stopped d r (S n) l G). exact I.
Qed.

Lemma islice_decomposed (n : nat) :
  forall (l : locals) (p0 : Q),
    pmt l <= p0 ->
    Forall (decomposed d r p0) (islice d r n l).
Proof.
  induction n as [| n IH]; intros l p0 Hp; [constructor |].
  destruct (Qlt_le_dec 0 (end_balance l)) as [G | G].
  2:{ rewrite (islice_stopped d r (S n) l G). constructor. }
  rewrite (islice_step d r n l G).
  pose proof (min_le_l (pmt l)
                (beg_balance l + Py.round (r * beg_balance l) d)) as M1.
  pose proof (min_le_r (pmt l)
                (beg_balance l + Py.round (r * beg_balance l) d)) as M2.
  constructor.
  - unfold decomposed, loop_body. cbn [fst Principal Interest Payment
      Begin_balance Additional_payment End_balance].
    set (i := Py.round (r * beg_balance l) d) in *.
    set (p := Py.min (pmt l) (beg_balance l + i)) in *.
    pose proof (min_le_r (adp l) (beg_balance l - (p - i))) as M3.
    split; [ring |]. split; [reflexivity |].
    split; [lra |]. split; [lra |]. split; [lra |]. split; [exact M3 |].
    ring.
  - apply IH.
    change (pmt (snd (loop_body d r l)))
      with (Py.min (pmt l) (beg_balance l + Py.round (r * beg_balance l) d)).
    lra.
Qed.

Lemma islice_periods (n : nat) :
  forall l : locals,
    map Period (islice d r n l)
    = count_from (per l) (length (islice d r n l)).
Proof.
  induction n as [| n IH]; intros l; [reflexivity |].
  destruct (Qlt_le_dec 0 (end_balance l)) as [G | G].
  - rewrite (islice_step d r n l G). cbn [map length count_from].
    f_equal. apply (IH (snd (loop_body d r l))).
  - rewrite (islice_stopped d r (S n) l G). reflexivity.
Qed.


(** When the payment exceeds the first interest by [delta], every period
    lowers the balance, by [delta] at least unless it ends at zero. *)
Lemma islice_decreasing (n : nat) :
  forall (l : locals) (delta : Q),
    0 <= r -> 0 < delta ->
    beg_balance l = end_balance l ->
    0 <= adp l ->
    delta <= pmt l - Py.round (r * beg_balance l) d ->
    Forall (fun row0 =>
              End_balance row0 < Begin_balance row0 /\
              (End_balance row0 == 0 \/
               End_balance row0 <= Begin_balance row0 - delta))
           (islice d r n l).
Proof.
  induction n as [| n IH]; intros l delta Hr Hd Hbe Ha Hdelta; [constructor |].
  destruct (Qlt_le_dec 0 (end_balance l)) as [G | G].
  2:{ rewrite (islice_stopped d r (S n) l G). constructor. }
  rewrite (islice_step d r n l G).
  set (row0 := fst (loop_body d r l)).
  set (l' := snd (loop_body d r l)).
  assert (Bl' : beg_balance l' = End_balance row0) by reflexivity.
  assert (N : 0 <= End_balance row0) by apply body_end_nonneg.
  assert (B0 : Begin_balance row0 = beg_balance l) by reflexivity.
  destruct (Qlt_le_dec 0 (End_balance row0)) as [G' | G'].
  - assert (Hp : Payment row0 == pmt l).
    { destruct (Qeq_dec (Payment row0) (pmt l)) as [E | E]; auto.
      pose proof (body_pmt_clipped d r l Ha E) as Z. fold row0 in Z. lra. }
    assert (Ha0 : 0 <= Additional_payment row0)
      by (apply body_adp_nonneg; auto).
    assert (Hpr : Principal row0
                  == pmt l - Py.round (r * beg_balance l) d).
    { change (Principal row0)
        with (Payment row0 - Py.round (r * beg_balance l) d).
      rewrite Hp. reflexivity. }
    assert (He : End_balance row0
                 == beg_balance l - (Principal row0 + Additional_payment row0))
      by reflexivity.
    assert (Hle : End_balance row0 <= beg_balance l - delta) by lra.
    constructor.
    + rewrite B0. split; [lra | right; exact Hle].
    + assert (Hround : Py.round (r * End_balance row0) d
                       <= Py.round (r * beg_balance l) d).
      { apply round_mono. rewrite !(Qmult_comm r).
        apply Qmult_le_compat_r; auto. lra. }
      apply (IH l' delta Hr Hd eq_refl Ha0).
      rewrite Bl'. change (pmt l') with (Payment row0). lra.
  - constructor.
    + rewrite B0, Hbe. split; [lra | left; lra].
    + rewrite islice_stopped; [constructor | exact G'].
Qed.


(** At a non-negative rate no interest is negative. *)
Lemma islice_interest_nonneg (n : nat) :
  forall l : locals,
    0 <= r ->
    beg_balance l = end_balance l ->
    Forall (fun row0 => 0 <= Interest row0) (islice d r n l).
Proof.
  induction n as [| n IH]; intros l Hr Hbe; [constructor |].
  destruct (Qlt_le_dec 0 (end_balance l)) as [G | G].
  2:{ rewrite (islice_stopped d r (S n) l G). constructor. }
  rewrite (islice_step d r n l G). constructor.
  - apply round_nonneg. apply Qmult_le_0_compat; auto. rewrite Hbe. lra.
  - apply (IH (snd (loop_body d r l)) Hr eq_refl).
Qed.

(** An exhausted generator has repaid the balance it started from. *)
Lemma exhaust_repaid (fuel : nat) :
  forall (l : locals) (rows : list row),
    exhaust d r fuel l = Some rows ->
    rows <> [] ->
    total_repaid rows == beg_balance l /\
    total_paid rows == beg_balance l + total_interest rows.
Proof.
  induction fuel as [| fuel IH]; intros l rows;
    destruct (Qlt_le_dec 0 (end_balance l)) as [G | G].
  - simpl. rewrite (next_running d r l G). discriminate.
  - rewrite (exhaust_stopped d r 0 l G). intros [= <-] N. congruence.
  - rewrite (exhaust_step d r fuel l G).
    assert (El : end_balance (snd (loop_body d r l))
                 = End_balance (fst (loop_body d r l))) by reflexivity.
    assert (Bl : beg_balance (snd (loop_body d r l))
                 = End_balance (fst (loop_body d r l))) by reflexivity.
    assert (He : End_balance (fst (loop_body d r l))
                 == beg_balance l
                    - (Principal (fst (loop_body d r l))
                       + Additional_payment (fst (loop_body d r l))))
      by reflexivity.
    assert (Hp : Principal (fst (loop_body d r l))
                 == Payment (fst (loop_body d r l))
                    - Interest (fst (loop_body d r l)))
      by reflexivity.
    pose proof (body_end_nonneg d r l) as P.
    revert P El Bl He Hp.
    generalize (fst (loop_body d r l)) as row1.
    generalize (snd (loop_body d r l)) as l'.
    intros l' row1 P El Bl He Hp.
    destruct (exhaust d r fuel l') as [rows' |] eqn:X; [| discriminate].
    cbn [option_map]. intros [= <-] _.
    unfold total_repaid, total_paid, total_interest. cbn [fold_right].
    fold (total_repaid rows') (total_paid rows') (total_interest rows').
    destruct rows' as [| row2 rows''].
    + apply exhaust_nil_inv in X. rewrite El in X.
      unfold total_repaid, total_paid, total_interest. cbn [fold_right].
      split; lra.
    + destruct (IH l' (row2 :: rows'') X) as [I1 I2]; [discriminate |].
      rewrite Bl in I1, I2. split; lra.
  - rewrite (exhaust_stopped d r (S fuel) l G). intros [= <-] N. congruence.
Qed.

End ScheduleFacts.

(** * Dates and the frame *)

Lemma add_month_index (d0 : Py.date) :
  month_index (Py.add_month d0) = (month_index d0 + 1)%Z.
Proof.
  unfold month_index, Py.add_month. cbn [Py.year Py.month].
  destruct (Z.eqb_spec (Py.month d0) 12) as [E | E]; [rewrite E |]; ring.
Qed.

Lemma add_month_valid (d0 : Py.date) :
  (1 <= Py.month d0 <= 12)%Z -> (1 <= Py.month (Py.add_month d0) <= 12)%Z.
Proof.
  unfold Py.add_month. cbn [Py.month].
  destruct (Z.eqb_spec (Py.month d0) 12); lia.
Qed.

Lemma add_month_first_day (d0 : Py.date) :
  Py.day d0 = 1%Z -> Py.day (Py.add_month d0) = 1%Z.
Proof.
  intros H. unfold Py.add_month. cbn [Py.day]. rewrite H.
  apply Z.min_l. unfold Py.days_in_month.
  repeat match goal with |- context [if ?b then _ else _] => destruct b end;
    lia.
Qed.

Lemma months_from_index (n : nat) :
  forall d0 : Py.date,
    map month_index (months_from d0 n) = count_from (month_index d0) n.
Proof.
  induction n as [| n IH]; intros d0; [reflexivity |].
  cbn [months_from map count_from]. f_equal.
  rewrite IH, add_month_index. reflexivity.
Qed.

Lemma months_from_first_days (n : nat) :
  forall d0 : Py.date,
    Py.day d0 = 1%Z ->
    (1 <= Py.month d0 <= 12)%Z ->
    Forall (fun d1 => Py.day d1 = 1%Z /\ (1 <= Py.month d1 <= 12)%Z)
           (months_from d0 n).
Proof.
  induction n as [| n IH]; intros d0 D M; [constructor |].
  cbn [months_from]. constructor; [auto |].
  apply IH; [apply add_month_first_day | apply add_month_valid]; auto.
Qed.

Lemma date_eqb_index (a b : Py.date) :
  month_index a <> month_index b -> Py.date_eqb a b = false.
Proof.
  intros H. unfold Py.date_eqb.
  destruct (Z.eqb_spec (Py.year a) (Py.year b)) as [Y | Y]; [| reflexivity].
  destruct (Z.eqb_spec (Py.month a) (Py.month b)) as [M | M]; [| reflexivity].
  exfalso. apply H. unfold month_index. rewrite Y, M. reflexivity.
Qed.

(** A dictionary of a month that the frame does not hold yet makes a row of
    its own, after the others. *)
Lemma agg_insert_fresh (row0 : row) (acc : list agg_row) :
  Forall (fun a => (month_index (a_Date a) < month_index (Date row0))%Z) acc ->
  agg_insert row0 acc = acc ++ [agg_of_row row0].
Proof.
  induction 1 as [| a acc H _ IH]; [reflexivity |].
  cbn [agg_insert app].
  rewrite (date_eqb_index (Date row0) (a_Date a)) by lia.
  rewrite IH. reflexivity.
Qed.

Lemma fold_agg_insert (rows : list row) :
  forall (acc : list agg_row) (d0 : Py.date),
    Forall (fun a => (month_index (a_Date a) < month_index d0)%Z) acc ->
    map Date rows = months_from d0 (length rows) ->
    fold_left (fun acc0 row0 => agg_insert row0 acc0) rows acc
    = acc ++ map agg_of_row rows.
Proof.
  induction rows as [| row0 rows IH]; intros acc d0 F D.
  - cbn [fold_left map]. rewrite app_nil_r. reflexivity.
  - cbn [map length months_from] in D. injection D as D0 D.
    cbn [fold_left map].
    rewrite agg_insert_fresh by (rewrite D0; exact F).
    rewrite (IH _ (Py.add_month d0)); [| | exact D].
    + rewrite <- app_assoc. reflexivity.
    + apply Forall_app. split.
      * eapply Forall_impl; [| exact F].
        intros a Ha. rewrite add_month_index. cbv beta in Ha. lia.
      * constructor; [| constructor].
        cbn [agg_of_row a_Date]. rewrite D0, add_month_index. lia.
Qed.

(** On consecutive months [resample] groups nothing. *)
Lemma resample_agg_months (rows : list row) (d0 : Py.date) :
  map Date rows = months_from d0 (length rows) ->
  resample_agg rows = map agg_of_row rows.
Proof.
  intros D. unfold resample_agg.
  rewrite (fold_agg_insert rows [] d0); [reflexivity | constructor | exact D].
Qed.

(** The dictionaries of an exhausted generator are those of a long enough
    prefix. *)
Lemma exhaust_islice (d : nat) (r : Q) (fuel : nat) :
  forall (l : locals) (rows : list row),
    exhaust d r fuel l = Some rows -> islice d r (S fuel) l = rows.
Proof.
  induction fuel as [| fuel IH]; intros l rows;
    destruct (Qlt_le_dec 0 (end_balance l)) as [G | G].
  - simpl. rewrite (next_running d r l G). discriminate.
  - rewrite (exhaust_stopped d r 0 l G), (islice_stopped d r 1 l G).
    congruence.
  - rewrite (exhaust_step d r fuel l G), (islice_step d r (S fuel) l G).
    destruct (exhaust d r fuel (snd (loop_body d r l))) as [rows' |] eqn:X;
      [| discriminate].
    cbn [option_map]. intros [= <-]. f_equal. apply IH. exact X.
  - rewrite (exhaust_stopped d r (S fuel) l G),
      (islice_stopped d r (S (S fuel)) l G).
    congruence.
Qed.

Lemma build_frame_months (rows : list row) (d0 : Py.date) :
  rows <> [] ->
  map Date rows = months_from d0 (length rows) ->
  build_frame rows = Py.Returns (map frame_of_row rows).
Proof.
  intros N D. unfold build_frame. destruct rows as [| row0 rest]; [congruence |].
  rewrite (resample_agg_months _ d0 D). rewrite map_map. reflexivity.
Qed.

(** * Rounding is odd *)

Lemma half_even_tie_up (y : Q) (n : Z) :
  y == inject_Z n + (1 # 2) -> Z.even n = true -> Py.round_half_even y = n.
Proof.
  intros E Ev. rewrite (half_even_comp _ _ E). unfold Py.round_half_even.
  assert (F : Qfloor (inject_Z n + (1 # 2)) = n).
  { pose proof (Qfloor_le (inject_Z n + (1 # 2))) as L.
    pose proof (Qlt_floor (inject_Z n + (1 # 2))) as U.
    rewrite inject_Z_plus in U. change (inject_Z 1) with 1 in U.
    assert (L' : inject_Z (Qfloor (inject_Z n + (1 # 2))) < inject_Z (n + 1)).
    { rewrite inject_Z_plus. change (inject_Z 1) with 1. lra. }
    assert (U' : inject_Z n < inject_Z (Qfloor (inject_Z n + (1 # 2)) + 1)).
    { rewrite inject_Z_plus. change (inject_Z 1) with 1. lra. }
    rewrite <- Zlt_Qlt in L', U'. lia. }
  rewrite F.
  assert (C : Qcompare (inject_Z n + (1 # 2) - inject_Z n) (1 # 2) = Eq).
  { rewrite <- Qeq_alt. ring. }
  rewrite C, Ev. reflexivity.
Qed.

Lemma half_even_tie_down (y : Q) (n : Z) :
  y == inject_Z n - (1 # 2) -> Z.even n = true -> Py.round_half_even y = n.
Proof.
  intros E Ev.
  assert (E' : y == inject_Z (n - 1) + (1 # 2)).
  { rewrite E. unfold Z.sub. rewrite inject_Z_plus, inject_Z_opp.
    change (inject_Z 1) with 1. ring. }
  rewrite (half_even_comp _ _ E'). unfold Py.round_half_even.
  assert (F : Qfloor (inject_Z (n - 1) + (1 # 2)) = (n - 1)%Z).
  { pose proof (Qfloor_le (inject_Z (n - 1) + (1 # 2))) as L.
    pose proof (Qlt_floor (inject_Z (n - 1) + (1 # 2))) as U.
    rewrite inject_Z_plus in U. change (inject_Z 1) with 1 in U.
    assert (L' : inject_Z (Qfloor (inject_Z (n - 1) + (1 # 2)))
                 < inject_Z (n - 1 + 1)).
    { rewrite (inject_Z_plus (n - 1) 1). change (inject_Z 1) with 1. lra. }
    assert (U' : inject_Z (n - 1)
                 < inject_Z (Qfloor (inject_Z (n - 1) + (1 # 2)) + 1)).
    { rewrite inject_Z_plus. change (inject_Z 1) with 1. lra. }
    rewrite <- Zlt_Qlt in L', U'. lia. }
  rewrite F.
  assert (C : Qcompare (inject_Z (n - 1) + (1 # 2) - inject_Z (n - 1)) (1 # 2)
              = Eq).
  { rewrite <- Qeq_alt. ring. }
  rewrite C.
  assert (Od : Z.even (n - 1) = false).
  { rewrite Z.even_sub, Ev. reflexivity. }
  rewrite Od. lia.
Qed.

(** A rounded number is nearer than one half, or it is a tie taken to the
    even neighbour. *)
Lemma half_even_cases (y : Q) :
  (inject_Z (Py.round_half_even y) - (1 # 2) < y /\
   y < inject_Z (Py.round_half_even y) + (1 # 2)) \/
  ((y == inject_Z (Py.round_half_even y) - (1 # 2) \/
    y == inject_Z (Py.round_half_even y) + (1 # 2)) /\
   Z.even (Py.round_half_even y) = true).
Proof.
  unfold Py.round_half_even.
  pose proof (Qfloor_le y) as L. pose proof (Qlt_floor y) as U.
  rewrite inject_Z_plus in U. change (inject_Z 1) with 1 in U.
  destruct (Qcompare (y - inject_Z (Qfloor y)) (1 # 2)) eqn:C.
  - rewrite <- Qeq_alt in C. right.
    destruct (Z.even (Qfloor y)) eqn:Ev.
    + split; [right; lra | exact Ev].
    + split.
      * left. rewrite inject_Z_plus. change (inject_Z 1) with 1. lra.
      * rewrite Z.even_add, Ev. reflexivity.
  - rewrite <- Qlt_alt in C. left. lra.
  - rewrite <- Qgt_alt in C. left.
    rewrite inject_Z_plus. change (inject_Z 1) with 1. lra.
Qed.

Lemma half_even_opp (y : Q) :
  Py.round_half_even (- y) = (- Py.round_half_even y)%Z.
Proof.
  destruct (half_even_cases y) as [[L U] | [[E | E] Ev]].
  - apply half_even_unique; rewrite inject_Z_opp; lra.
  - apply half_even_tie_up.
    + rewrite inject_Z_opp. lra.
    + rewrite Z.even_opp. exact Ev.
  - apply half_even_tie_down.
    + rewrite inject_Z_opp. lra.
    + rewrite Z.even_opp. exact Ev.
Qed.

Lemma round_opp (x : Q) (d : nat) : Py.round (- x) d = - Py.round x d.
Proof.
  unfold Py.round.
  assert (E : - x * inject_Z (Z.pos (Py.scale d))
              == - (x * inject_Z (Z.pos (Py.scale d)))) by ring.
  rewrite (half_even_comp _ _ E), half_even_opp. reflexivity.
Qed.

(** * The root of one *)





(** * The annuity formula *)

Lemma Qpower_lt_1 (q : Q) (n : Z) :
  0 < q -> q < 1 -> (0 < n)%Z -> q ^ n < 1.
Proof.
  intros H0 H1 Hn.
  assert (I : 1 < / q).
  { apply Qlt_shift_inv_l; [exact H0 | lra]. }
  pose proof (Qpower_1_lt (/ q) n I Hn) as P.
  rewrite Qinv_power in P.
  assert (Pq : 0 < q ^ n) by (apply Qpower_0_lt; exact H0).
  assert (E : q ^ n == q ^ n * 1) by ring.
  rewrite E. apply Qlt_le_trans with (q ^ n * / q ^ n).
  - rewrite !(Qmult_comm (q ^ n)). apply Qmult_lt_compat_r; auto.
  - rewrite Qmult_inv_r; [lra |]. intros Z. rewrite Z in Pq. discriminate.
Qed.

(** [npf.pmt] is minus the annuity payment. *)
Lemma npf_pmt_annuity (rate : Q) (nper : Z) (pv : Q) :
  ~ rate == 0 -> -1 < rate -> (0 < nper)%Z ->
  Npf.pmt rate nper pv == - (pv * rate / (1 - (1 + rate) ^ (- nper))).
Proof.
  intros Hz Hr Hn. unfold Npf.pmt. cbv zeta.
  assert (Z : Qeq_bool rate 0 = false).
  { apply not_true_is_false. intros E. apply Qeq_bool_eq in E. auto. }
  rewrite Z, Qpower_opp.
  assert (Ht : 0 < (1 + rate) ^ nper) by (apply Qpower_0_lt; lra).
  assert (H1 : ~ (1 + rate) ^ nper - 1 == 0).
  { destruct (Qlt_le_dec 0 rate) as [P | P].
    - pose proof (Qpower_1_lt (1 + rate) nper ltac:(lra) Hn). lra.
    - assert (N : rate < 0).
      { destruct (Qlt_le_dec rate 0) as [| G]; auto.
        exfalso. apply Hz. lra. }
      pose proof (Qpower_lt_1 (1 + rate) nper ltac:(lra) ltac:(lra) Hn). lra. }
  set (temp := (1 + rate) ^ nper) in *.
  field. repeat split; auto; lra.
Qed.


(** * Further properties of the two classes *)

(** A property of every prefix of the loop is a property of the prefixes of
    both classes. *)
Lemma prefix_lift (principal : Q) (years : Z) (rate : Q) (income : Py.obj)
      (addl_pmt : Q) (today : Py.date) (n : nat)
      (P : nat -> Q -> Q -> list row -> Prop) :
  (forall d r p,
      P d r p
        (islice d r n
           (mklocals p addl_pmt 1 principal principal
                     (Py.add_month (Py.replace_day1 today))))) ->
  let h := House.mkMortgage principal years rate in
  let s := SrcHouse.mkMortgage principal years rate income (3707 # 10000) in
  (exists pmt0 rows,
      House.monthly_payment h = Py.Returns pmt0 /\
      House.schedule_prefix h addl_pmt today n = Py.Returns rows /\
      P House.ndigits (House.amortizdict_rate h) pmt0 rows) /\
  (exists pmt0 rows,
      SrcHouse.monthly_payment s = Py.Returns pmt0 /\
      SrcHouse.schedule_prefix s addl_pmt today n = Py.Returns rows /\
      P SrcHouse.ndigits (SrcHouse.periodic_interest_rate s) pmt0 rows).
Proof.
  intros H h s.
  destruct (house_monthly_payment_returns h) as [p E].
  destruct (srchouse_monthly_payment_returns s) as [p' E'].
  split.
  - exists p. eexists. split; [exact E |].
    rewrite (house_prefix_eq h addl_pmt today n p E).
    split; [reflexivity | apply H].
  - exists p'. eexists. split; [exact E' |].
    rewrite (srchouse_prefix_eq s addl_pmt today n p' E').
    split; [reflexivity | apply H].
Qed.

(** X1.  Balance continuity: the first dictionary begins with the
    principal, and every other one with the balance the one before ended
    with. *)
Theorem schedule_balances_chain
        (principal : Q) (years : Z) (rate : Q) (income : Py.obj)
        (addl_pmt : Q) (today : Py.date) (n : nat) :
  let h := House.mkMortgage principal years rate in
  let s := SrcHouse.mkMortgage principal years rate income (3707 # 10000) in
  (exists rows,
      House.schedule_prefix h addl_pmt today n = Py.Returns rows /\
      continuous principal rows) /\
  (exists rows,
      SrcHouse.schedule_prefix s addl_pmt today n = Py.Returns rows /\
      continuous principal rows).
Proof.
  destruct (prefix_lift principal years rate income addl_pmt today n
              (fun _ _ _ rows => continuous principal rows))
    as [(p & rows & _ & X & C) (p' & rows' & _ & X' & C')].
  - intros d r p.
    apply (islice_continuous d r n
             (mklocals p addl_pmt 1 principal principal
                       (Py.add_month (Py.replace_day1 today)))).
    reflexivity.
  - split; eauto.
Qed.


(** X3.  The dictionaries are numbered 1, 2, 3, ..., they are dated the
    first day of the consecutive months after the month of the current date,
    and for a current date with a month from 1 to 12 so are theirs. *)
Theorem schedule_periods_and_dates
        (principal : Q) (years : Z) (rate : Q) (income : Py.obj)
        (addl_pmt : Q) (today : Py.date) (n : nat) :
  let h := House.mkMortgage principal years rate in
  let s := SrcHouse.mkMortgage principal years rate income (3707 # 10000) in
  let numbered (rows : list row) :=
    map Period rows = count_from 1 (length rows) /\
    map month_index (map Date rows)
    = count_from (month_index today + 1) (length rows) /\
    ((1 <= Py.month today <= 12)%Z ->
     Forall (fun row0 =>
               Py.day (Date row0) = 1%Z /\
               (1 <= Py.month (Date row0) <= 12)%Z) rows) in
  (exists rows,
      House.schedule_prefix h addl_pmt today n = Py.Returns rows /\
      numbered rows) /\
  (exists rows,
      SrcHouse.schedule_prefix s addl_pmt today n = Py.Returns rows /\
      numbered rows).
Proof.
  intros h s numbered.
  destruct (prefix_lift principal years rate income addl_pmt today n
              (fun _ _ _ rows => numbered rows))
    as [(p & rows & _ & X & C) (p' & rows' & _ & X' & C')];
    [| split; eauto].
  intros d r p. unfold numbered.
  set (l := mklocals p addl_pmt 1 principal principal
                     (Py.add_month (Py.replace_day1 today))).
  pose proof (islice_dates d r n l) as D.
  split; [apply (islice_periods d r n l) |].
  split.
  - rewrite D, months_from_index. cbn [start_date l].
    rewrite add_month_index. reflexivity.
  - intros M.
    assert (F : Forall (fun d1 => Py.day d1 = 1%Z /\
                                  (1 <= Py.month d1 <= 12)%Z)
                       (map Date (islice d r n l))).
    { rewrite D. apply months_from_first_days.
      - apply add_month_first_day. reflexivity.
      - apply add_month_valid. exact M. }
    rewrite Forall_map in F. exact F.
Qed.

(** The theorem above at [small_loan], taken out on [today0]. *)
Lemma schedule_periods_and_dates_witness :
  exists rows,
    SrcHouse.schedule_prefix small_loan 0 today0 12 = Py.Returns rows /\
    map Period rows = count_from 1 (length rows) /\
    Forall (fun row0 =>
              Py.day (Date row0) = 1%Z /\
              (1 <= Py.month (Date row0) <= 12)%Z) rows.
Proof.
  destruct (proj2 (schedule_periods_and_dates 1200 1 0 Py.PyNone 0 today0 12))
    as (rows & X & P & _ & V).
  exists rows. split; [exact X | split; [exact P |]].
  apply V. cbn. lia.
Defined.



(** X5.  When the level payment exceeds the interest of the first period,
    at a non-negative rate and with a non-negative additional payment, every
    period ends with a lower balance than it began with. *)
Theorem balances_decrease
        (principal : Q) (years : Z) (rate : Q) (income : Py.obj)
        (addl_pmt : Q) (today : Py.date) (n : nat) :
  let h := House.mkMortgage principal years rate in
  let s := SrcHouse.mkMortgage principal years rate income (3707 # 10000) in
  0 <= rate -> 0 <= addl_pmt ->
  (forall pmt0,
      House.monthly_payment h = Py.Returns pmt0 ->
      Py.round (House.amortizdict_rate h * principal) 2 < pmt0 ->
      exists rows,
        House.schedule_prefix h addl_pmt today n = Py.Returns rows /\
        Forall (fun row0 => End_balance row0 < Begin_balance row0) rows) /\
  (forall pmt0,
      SrcHouse.monthly_payment s = Py.Returns pmt0 ->
      Py.round (SrcHouse.periodic_interest_rate s * principal) 0 < pmt0 ->
      exists rows,
        SrcHouse.schedule_prefix s addl_pmt today n = Py.Returns rows /\
        Forall (fun row0 => End_balance row0 < Begin_balance row0) rows).
Proof.
  intros h s Hr Ha.
  assert (W : forall d r p,
             0 <= r ->
             Py.round (r * principal) d < p ->
             Forall (fun row0 => End_balance row0 < Begin_balance row0)
                    (islice d r n
                       (mklocals p addl_pmt 1 principal principal
                                 (Py.add_month (Py.replace_day1 today))))).
  { intros d r p Hr' Hp.
    eapply Forall_impl;
      [| apply (islice_decreasing d r n _ (p - Py.round (r * principal) d));
         auto].
    - intros row0 [L _]. exact L.
    - lra.
    - apply Qle_refl. }
  split; intros pmt0 E Hp; eexists.
  - rewrite (house_prefix_eq h addl_pmt today n pmt0 E).
    split; [reflexivity |].
    apply W; [apply house_amortizdict_rate_nonneg; exact Hr | exact Hp].
  - rewrite (srchouse_prefix_eq s addl_pmt today n pmt0 E).
    split; [reflexivity |].
    apply W; [apply srchouse_rate_nonneg; exact Hr | exact Hp].
Qed.

Lemma small_loan_first_interest :
  Py.round (SrcHouse.periodic_interest_rate small_loan * 1200) 0 < 100.
Proof. apply ltb_lt. vm_compute. reflexivity. Qed.

(** The theorem above at [small_loan]. *)
Lemma balances_decrease_witness :
  exists rows,
    SrcHouse.schedule_prefix small_loan 0 today0 12 = Py.Returns rows /\
    Forall (fun row0 => End_balance row0 < Begin_balance row0) rows.
Proof.
  assert (Hr : 0 <= 0) by discriminate.
  exact (proj2 (balances_decrease 1200 1 0 Py.PyNone 0 today0 12 Hr Hr)
               100 small_loan_payment small_loan_first_interest).
Defined.

Lemma npf_pmt_opp (rate : Q) (nper : Z) (pv : Q) :
  Npf.pmt rate nper (- pv) == - Npf.pmt rate nper pv.
Proof. unfold Npf.pmt, Qdiv. cbv zeta. ring. Qed.

(** The payment of either class: the rounded opposite of [npf.pmt]. *)
Lemma payment_of_pmt (d : nat) (x y : Q) :
  x == - y -> - Py.round x d == Py.round y d.
Proof.
  intros E. rewrite (round_comp _ _ E d d eq_refl), round_opp. ring.
Qed.



(** X7.  For a positive term and a periodic rate that is neither zero nor
    below -100%, the level payment is the annuity payment
    [principal * r / (1 - (1 + r) ^ -n)] of the [n = 12 * years] months,
    rounded to the digits of the class. *)
Theorem payment_is_rounded_annuity
        (principal : Q) (years : Z) (rate : Q) (income : Py.obj) :
  let h := House.mkMortgage principal years rate in
  let s := SrcHouse.mkMortgage principal years rate income (3707 # 10000) in
  (0 < years)%Z ->
  (forall r, r = House.monthly_payment_rate h ->
             ~ r == 0 -> -1 < r ->
             exists pmt0,
               House.monthly_payment h = Py.Returns pmt0 /\
               pmt0 == Py.round
                         (principal * r / (1 - (1 + r) ^ (- (years * 12)))) 2) /\
  (forall r, r = SrcHouse.periodic_interest_rate s ->
             ~ r == 0 -> -1 < r ->
             exists pmt0,
               SrcHouse.monthly_payment s = Py.Returns pmt0 /\
               pmt0 == Py.round
                         (principal * r / (1 - (1 + r) ^ (- (years * 12)))) 0).
Proof.
  intros h s Hy.
  split; intros r -> Hz Hr; eexists; (split; [reflexivity |]);
    apply payment_of_pmt; apply npf_pmt_annuity; auto; lia.
Qed.

(** The theorem above at 1000 borrowed for one year at 12%: one percent a
    month. *)
Lemma payment_is_rounded_annuity_witness :
  exists pmt0,
    SrcHouse.monthly_payment one_percent_loan = Py.Returns pmt0 /\
    pmt0 == Py.round
              (1000 * ((12 # 100) / 12)
               / (1 - (1 + (12 # 100) / 12) ^ (- (1 * 12)))) 0.
Proof.
  assert (Hy : (0 < 1)%Z) by reflexivity.
  assert (Hz : ~ (12 # 100) / 12 == 0) by discriminate.
  assert (Hr : -1 < (12 # 100) / 12) by reflexivity.
  exact (proj2 (payment_is_rounded_annuity 1000 1 (12 # 100) Py.PyNone Hy)
               ((12 # 100) / 12) eq_refl Hz Hr).
Defined.

(** X8.  The level payment of a loan with a non-negative principal, a
    positive term and a non-negative rate is not negative. *)
Theorem payment_nonneg
        (principal : Q) (years : Z) (rate : Q) (income : Py.obj) :
  let h := House.mkMortgage principal years rate in
  let s := SrcHouse.mkMortgage principal years rate income (3707 # 10000) in
  0 <= principal -> (0 < years)%Z -> 0 <= rate ->
  (exists pmt0, House.monthly_payment h = Py.Returns pmt0 /\ 0 <= pmt0) /\
  (exists pmt0, SrcHouse.monthly_payment s = Py.Returns pmt0 /\ 0 <= pmt0).
Proof.
  intros h s Hp Hy Hr.
  assert (W : forall d r, 0 <= r ->
                          0 <= - Py.round (Npf.pmt r (years * 12) principal) d).
  { intros d r Hr'.
    assert (E : Npf.pmt r (years * 12) principal
                == - Npf.pmt r (years * 12) (- principal)).
    { rewrite npf_pmt_opp. ring. }
    rewrite (payment_of_pmt d _ _ E). apply round_nonneg.
    apply npf_pmt_nonneg; [exact Hr' | lia | lra]. }
  split; eexists; (split; [reflexivity |]); apply W.
  - apply house_monthly_payment_rate_nonneg. exact Hr.
  - apply srchouse_rate_nonneg. exact Hr.
Qed.

(** The theorem above at [small_loan]. *)
Lemma payment_nonneg_witness :
  exists pmt0,
    SrcHouse.monthly_payment small_loan = Py.Returns pmt0 /\ 0 <= pmt0.
Proof.
  assert (Hp : 0 <= 1200) by discriminate.
  assert (Hy : (0 < 1)%Z) by reflexivity.
  assert (Hr : 0 <= 0) by discriminate.
  exact (proj2 (payment_nonneg 1200 1 0 Py.PyNone Hp Hy Hr)).
Defined.

(** * Finished schedules *)

(** A finished schedule of a positive balance has a period. *)
Lemma exhaust_nonempty (d : nat) (r : Q) (fuel : nat) (l : locals)
      (rows : list row) :
  exhaust d r fuel l = Some rows -> 0 < end_balance l -> rows <> [].
Proof.
  intros X G ->. apply exhaust_nil_inv in X. lra.
Qed.

(** A finished schedule is dated month by month. *)
Lemma exhaust_dates (d : nat) (r : Q) (fuel : nat) (l : locals)
      (rows : list row) :
  exhaust d r fuel l = Some rows ->
  map Date rows = months_from (start_date l) (length rows).
Proof.
  intros X. apply exhaust_islice in X. rewrite <- X. apply islice_dates.
Qed.

Lemma exhaust_build_frame (d : nat) (r : Q) (fuel : nat) (l : locals)
      (rows : list row) :
  exhaust d r fuel l = Some rows -> 0 < end_balance l ->
  build_frame rows = Py.Returns (map frame_of_row rows).
Proof.
  intros X G. apply (build_frame_months rows (start_date l)).
  - exact (exhaust_nonempty d r fuel l rows X G).
  - exact (exhaust_dates d r fuel l rows X).
Qed.

Lemma house_schedule_inv (self : House.Mortgage) (adp : Q) (today : Py.date)
      (fuel : nat) (rows : list row) :
  House.schedule self adp today fuel = Some (Py.Returns rows) ->
  exists pmt0,
    exhaust House.ndigits (House.amortizdict_rate self) fuel
      (mklocals pmt0 adp 1 (House.principal self) (House.principal self)
                (Py.add_month (Py.replace_day1 today))) = Some rows.
Proof.
  destruct (house_monthly_payment_returns self) as [p E].
  rewrite (house_schedule_eq self adp today fuel p E). intros X.
  exists p. apply returns_some_inv. exact X.
Qed.


(** The twelve periods of [small_loan]. *)
Lemma small_loan_schedule :
  exists rows,
    SrcHouse.schedule small_loan 0 today0 12 = Some (Py.Returns rows).
Proof. eexists. vm_compute. reflexivity. Qed.



(** * The frames *)

Lemma one_period_loan_schedule :
  exists rows,
    House.schedule one_period_loan 100 today0 1 = Some (Py.Returns rows).
Proof. eexists. vm_compute. reflexivity. Qed.

Lemma house_amortize_eq (self : House.Mortgage) (addl_pmt : Q)
      (today : Py.date) (fuel : nat) (rows : list row) :
  0 < House.principal self ->
  House.schedule self addl_pmt today fuel = Some (Py.Returns rows) ->
  House.amortize self addl_pmt today fuel
  = Some (Py.Returns (map frame_of_row rows)).
Proof.
  intros Hp X. unfold House.amortize. rewrite X. cbn [option_map Py.bind].
  apply house_schedule_inv in X. destruct X as [p X].
  rewrite (exhaust_build_frame _ _ _ _ _ X Hp). reflexivity.
Qed.

(** X10.  [amortize] of [src/house.py], for a positive principal and a
    schedule that ends, returns one row for each period, in order: the date
    and the amounts of the period unchanged, and [total_payment] the sum of
    payment and additional payment. *)
Theorem amortize_one_row_per_period
        (principal : Q) (years : Z) (rate : Q)
        (addl_pmt : Q) (today : Py.date) (fuel : nat) (rows : list row) :
  let h := House.mkMortgage principal years rate in
  0 < principal ->
  House.schedule h addl_pmt today fuel = Some (Py.Returns rows) ->
  House.amortize h addl_pmt today fuel
  = Some (Py.Returns (map frame_of_row rows)).
Proof.
  intros h Hp X.
  exact (house_amortize_eq h addl_pmt today fuel rows Hp X).
Qed.

(** The theorem above at [one_period_loan]. *)
Lemma amortize_one_row_per_period_witness :
  exists rows,
    House.schedule one_period_loan 100 today0 1 = Some (Py.Returns rows) /\
    House.amortize one_period_loan 100 today0 1
    = Some (Py.Returns (map frame_of_row rows)).
Proof.
  destruct one_period_loan_schedule as [rows X].
  assert (Hp : 0 < 100) by reflexivity.
  exists rows. split; [exact X |].
  exact (amortize_one_row_per_period 100 1 0 100 today0 1 rows Hp X).
Defined.










(** * Buying a house *)



(** * Length and interest of a schedule *)

Lemma islice_repaid_le (d : nat) (r : Q) (n : nat) :
  forall (l : locals) (p0 a0 : Q),
    0 <= r ->
    beg_balance l = end_balance l ->
    pmt l <= p0 -> adp l <= a0 ->
    Forall (fun row0 => Principal row0 + Additional_payment row0 <= p0 + a0)
           (islice d r n l).
Proof.
  induction n as [| n IH]; intros l p0 a0 Hr Hbe Hp Ha; [constructor |].
  destruct (Qlt_le_dec 0 (end_balance l)) as [G | G].
  2:{ rewrite (islice_stopped d r (S n) l G). constructor. }
  rewrite (islice_step d r n l G).
  assert (Hi : 0 <= Py.round (r * beg_balance l) d).
  { apply round_nonneg. apply Qmult_le_0_compat; [exact Hr |].
    rewrite Hbe. lra. }
  pose proof (min_le_l (pmt l)
                (beg_balance l + Py.round (r * beg_balance l) d)) as M1.
  set (i := Py.round (r * beg_balance l) d) in *.
  set (p' := Py.min (pmt l) (beg_balance l + i)) in *.
  pose proof (min_le_l (adp l) (beg_balance l - (p' - i))) as M2.
  constructor.
  - unfold loop_body. cbn [fst Principal Additional_payment].
    fold i. fold p'. lra.
  - apply (IH (snd (loop_body d r l)) p0 a0 Hr eq_refl).
    + unfold loop_body. cbn [snd pmt]. fold i. fold p'. lra.
    + unfold loop_body. cbn [snd adp]. fold i. fold p'. lra.
Qed.

Lemma total_repaid_le (c : Q) (rows : list row) :
  Forall (fun row0 => Principal row0 + Additional_payment row0 <= c) rows ->
  total_repaid rows <= inject_Z (Z.of_nat (length rows)) * c.
Proof.
  induction 1 as [| row0 rows H F IH].
  - change (0 <= 0 * c). lra.
  - cbn [total_repaid fold_right length]. fold (total_repaid rows).
    rewrite Nat2Z.inj_succ. unfold Z.succ. rewrite inject_Z_plus.
    change (inject_Z 1) with 1. lra.
Qed.

Lemma exhaust_length_ge (d : nat) (r : Q) (fuel : nat) (l : locals)
      (rows : list row) :
  exhaust d r fuel l = Some rows ->
  0 <= r ->
  beg_balance l = end_balance l ->
  0 < end_balance l ->
  beg_balance l <= inject_Z (Z.of_nat (length rows)) * (pmt l + adp l).
Proof.
  intros X Hr Hbe G.
  destruct (exhaust_repaid d r fuel l rows X (exhaust_nonempty _ _ _ _ _ X G))
    as [R _].
  pose proof (exhaust_islice d r fuel l rows X) as I.
  pose proof (islice_repaid_le d r (S fuel) l (pmt l) (adp l) Hr Hbe
                               (Qle_refl _) (Qle_refl _)) as F.
  rewrite I in F. apply total_repaid_le in F. lra.
Qed.

(** X14.  A schedule is not shorter than the payments allow: at a
    non-negative rate, the periods of a schedule that ends, times the level
    payment plus the additional payment, cover the principal. *)
Theorem schedule_length_lower_bound
        (principal : Q) (years : Z) (rate : Q) (income : Py.obj)
        (addl_pmt : Q) (today : Py.date) (fuel : nat) (rows : list row) :
  let h := House.mkMortgage principal years rate in
  let s := SrcHouse.mkMortgage principal years rate income (3707 # 10000) in
  0 < principal -> 0 <= rate ->
  (forall pmt0,
      House.monthly_payment h = Py.Returns pmt0 ->
      House.schedule h addl_pmt today fuel = Some (Py.Returns rows) ->
      principal <= inject_Z (Z.of_nat (length rows)) * (pmt0 + addl_pmt)) /\
  (forall pmt0,
      SrcHouse.monthly_payment s = Py.Returns pmt0 ->
      SrcHouse.schedule s addl_pmt today fuel = Some (Py.Returns rows) ->
      principal <= inject_Z (Z.of_nat (length rows)) * (pmt0 + addl_pmt)).
Proof.
  intros h s Hp Hr. split; intros pmt0 E X.
  - rewrite (house_schedule_eq h addl_pmt today fuel pmt0 E) in X.
    apply returns_some_inv in X.
    apply (exhaust_length_ge _ _ _ _ _ X
             (house_amortizdict_rate_nonneg h Hr) eq_refl Hp).
  - rewrite (srchouse_schedule_eq s addl_pmt today fuel pmt0 E) in X.
    apply returns_some_inv in X.
    apply (exhaust_length_ge _ _ _ _ _ X (srchouse_rate_nonneg s Hr) eq_refl Hp).
Qed.

(** The theorem above at [small_loan]. *)
Lemma schedule_length_lower_bound_witness :
  exists rows,
    SrcHouse.schedule small_loan 0 today0 12 = Some (Py.Returns rows) /\
    1200 <= inject_Z (Z.of_nat (length rows)) * (100 + 0).
Proof.
  destruct small_loan_schedule as [rows X].
  assert (Hp : 0 < 1200) by reflexivity.
  assert (Hr : 0 <= 0) by discriminate.
  exists rows. split; [exact X |].
  exact (proj2 (schedule_length_lower_bound 1200 1 0 Py.PyNone 0 today0 12
                                            rows Hp Hr)
               100 small_loan_payment X).
Defined.

Lemma interest_falls_of (d : nat) (r : Q) :
  0 <= r ->
  forall (rows : list row) (b : Q),
    continuous b rows ->
    Forall (fun row0 => End_balance row0 < Begin_balance row0) rows ->
    Forall (fun row0 => Interest row0 = Py.round (r * Begin_balance row0) d)
           rows ->
    interest_falls rows.
Proof.
  intros Hr. induction rows as [| row1 rest IH]; intros b C D I; [exact Logic.I |].
  destruct C as [_ C]. inversion D as [| ? ? D1 D']; subst.
  inversion I as [| ? ? I1 I']; subst.
  split; [| exact (IH _ C D' I')].
  destruct rest as [| row2 rest']; [exact Logic.I |].
  destruct C as [B2 _]. inversion I' as [| ? ? I2 _]; subst.
  rewrite I1, I2, B2. apply round_mono.
  assert (0 <= r * (Begin_balance row1 - End_balance row1))
    by (apply Qmult_le_0_compat; lra).
  assert (E : r * (Begin_balance row1 - End_balance row1)
              == r * Begin_balance row1 - r * End_balance row1) by ring.
  lra.
Qed.

Lemma islice_interest_falls (d : nat) (r : Q) (n : nat) (l : locals) :
  0 <= r -> 0 <= adp l ->
  beg_balance l = end_balance l ->
  Py.round (r * beg_balance l) d < pmt l ->
  interest_falls (islice d r n l).
Proof.
  intros Hr Ha Hbe Hp.
  apply (interest_falls_of d r Hr _ (beg_balance l)).
  - apply islice_continuous. exact Hbe.
  - eapply Forall_impl;
      [| apply (islice_decreasing d r n l
                  (pmt l - Py.round (r * beg_balance l) d));
         auto].
    + intros row0 [L _]. exact L.
    + lra.
    + apply Qle_refl.
  - eapply Forall_impl;
      [| apply (islice_decomposed d r n l (pmt l)); apply Qle_refl].
    intros row0 (_ & I & _). exact I.
Qed.

(** X15.  When the level payment exceeds the interest of the first period,
    at a non-negative rate and with a non-negative additional payment, no
    period carries more interest than the period before it. *)
Theorem interest_never_rises
        (principal : Q) (years : Z) (rate : Q) (income : Py.obj)
        (addl_pmt : Q) (today : Py.date) (n : nat) :
  let h := House.mkMortgage principal years rate in
  let s := SrcHouse.mkMortgage principal years rate income (3707 # 10000) in
  0 <= rate -> 0 <= addl_pmt ->
  (forall pmt0,
      House.monthly_payment h = Py.Returns pmt0 ->
      Py.round (House.amortizdict_rate h * principal) 2 < pmt0 ->
      exists rows,
        House.schedule_prefix h addl_pmt today n = Py.Returns rows /\
        interest_falls rows) /\
  (forall pmt0,
      SrcHouse.monthly_payment s = Py.Returns pmt0 ->
      Py.round (SrcHouse.periodic_interest_rate s * principal) 0 < pmt0 ->
      exists rows,
        SrcHouse.schedule_prefix s addl_pmt today n = Py.Returns rows /\
        interest_falls rows).
Proof.
  intros h s Hr Ha. split; intros pmt0 E Hp; eexists.
  - rewrite (house_prefix_eq h addl_pmt today n pmt0 E).
    split; [reflexivity |].
    apply islice_interest_falls;
      [apply house_amortizdict_rate_nonneg; exact Hr | exact Ha
       | reflexivity | exact Hp].
  - rewrite (srchouse_prefix_eq s addl_pmt today n pmt0 E).
    split; [reflexivity |].
    apply islice_interest_falls;
      [apply srchouse_rate_nonneg; exact Hr | exact Ha
       | reflexivity | exact Hp].
Qed.

(** The theorem above at [one_percent_loan]: 1000 at one percent a month,
    paid with 89 a month. *)
Lemma one_percent_loan_payment :
  SrcHouse.monthly_payment one_percent_loan = Py.Returns 89.
Proof. vm_compute. reflexivity. Qed.

Lemma one_percent_loan_first_interest :
  Py.round (SrcHouse.periodic_interest_rate one_percent_loan * 1000) 0 < 89.
Proof. apply ltb_lt. vm_compute. reflexivity. Qed.

Lemma interest_never_rises_witness :
  exists rows,
    SrcHouse.schedule_prefix one_percent_loan 0 today0 12 = Py.Returns rows /\
    interest_falls rows.
Proof.
  assert (Hr : 0 <= 12 # 100) by discriminate.
  assert (Ha : 0 <= 0) by discriminate.
  exact (proj2 (interest_never_rises 1000 1 (12 # 100) Py.PyNone 0 today0 12
                                     Hr Ha)
               89 one_percent_loan_payment one_percent_loan_first_interest).
Defined.



